(** * Product inventory API: request pipeline and API-key lifecycle

    A shallow embedding of [server.js] and [mockData.js]: the API-key
    middleware, key issuance, the [GET /api/products] pipeline (parse,
    filter, sort, slice), lookup by id, the categories, catalog
    regeneration and the initialisation of the module.

    Conventions of the model.
    - A JavaScript number is modelled by its mathematical value: [NaN],
      an infinity, or an exact rational.  The arithmetic of the model is
      exact; the code computes with doubles, which give the same results
      on the safe integers ([Number.isSafeInteger]) and, for decimal
      literals, on the values that a double holds.  The statements that
      depend on the exact value of a number read from a request, or
      computed from one, are restricted to this range.  The sign of zero
      is not modelled (no response can show it: JSON prints [-0] as [0],
      and [NaN] and both infinities as [null]).
    - A string is its sequence of UTF-16 code units.  The Unicode case
      mapping and the collation belong to the host.
    - Query parameters are strings or absent (repeated and bracketed
      parameters, which Express turns into arrays and objects, are not
      modelled).  In request bodies [expiresIn] and [masterKey] are
      strings or absent and [count] is a number or absent; [count] and
      the prices of the products are the values that [JSON.parse] has
      read.
    - Writing [products.json] and [apiKeys.json] is taken to succeed; the
      files are modelled by the value last written.
    - Arrays live in a heap of array objects and are handled through
      references, so that in-place mutation ([sort]) and aliasing are
      visible.  Product objects are never mutated by the program and are
      modelled as values.
    - [Date.now], [uuidv4] and the faker library are oracles of the world:
      each call consumes the next reading. *)

From Stdlib Require Import ZArith QArith Qround Qabs Qcanon Ascii String DecimalString Lia.
From Stdlib Require Import Strings.Byte.
From Stdlib Require DecimalPos.
From stdpp Require Import gmap list sorting.

Local Open Scope Z_scope.

(** ** JavaScript numbers *)

Module Num.

Inductive number : Type :=
| NaN
| Inf (negative : bool)
| Fin (q : Q).

Definition ofZ (z : Z) : number := Fin (inject_Z z).

(** [a + b] *)
Definition add (a b : number) : number :=
  match a, b with
  | NaN, _ | _, NaN => NaN
  | Inf s, Inf t => if Bool.eqb s t then Inf s else NaN
  | Inf s, Fin _ | Fin _, Inf s => Inf s
  | Fin x, Fin y => Fin (Qred (x + y))
  end.

(** [-a] *)
Definition neg (a : number) : number :=
  match a with
  | NaN => NaN
  | Inf s => Inf (negb s)
  | Fin x => Fin (Qred (- x))
  end.

(** [a - b] *)
Definition sub (a b : number) : number := add a (neg b).

(** [a * b] *)
Definition mul (a b : number) : number :=
  match a, b with
  | NaN, _ | _, NaN => NaN
  | Inf s, Inf t => Inf (xorb s t)
  | Inf s, Fin x | Fin x, Inf s =>
      match Qcompare x 0 with
      | Eq => NaN
      | Lt => Inf (negb s)
      | Gt => Inf s
      end
  | Fin x, Fin y => Fin (Qred (x * y))
  end.

(** [a / b] *)
Definition div (a b : number) : number :=
  match a, b with
  | NaN, _ | _, NaN => NaN
  | Inf _, Inf _ => NaN
  | Inf s, Fin y => Inf (xorb s (Qle_bool y 0 && negb (Qeq_bool y 0)))
  | Fin _, Inf _ => Fin 0
  | Fin x, Fin y =>
      if Qeq_bool y 0 then
        match Qcompare x 0 with
        | Eq => NaN
        | Lt => Inf true
        | Gt => Inf false
        end
      else Fin (Qred (x / y))
  end.

(** [Math.ceil(a)] *)
Definition ceil (a : number) : number :=
  match a with
  | Fin x => ofZ (Qceiling x)
  | _ => a
  end.

(** [a >= b], [a <= b], [a > b]: every comparison with [NaN] is false. *)
Definition ge (a b : number) : bool :=
  match a, b with
  | NaN, _ | _, NaN => false
  | Inf s, Inf t => implb s t
  | Inf s, Fin _ => negb s
  | Fin _, Inf t => t
  | Fin x, Fin y => Qle_bool y x
  end.

Definition le (a b : number) : bool := ge b a.

Definition gt (a b : number) : bool :=
  match a, b with
  | NaN, _ | _, NaN => false
  | _, _ => negb (ge b a)
  end.

(** [a === b] on numbers *)
Definition strict_eq (a b : number) : bool :=
  match a, b with
  | Inf s, Inf t => Bool.eqb s t
  | Fin x, Fin y => Qeq_bool x y
  | _, _ => false
  end.

(** [ToIntegerOrInfinity]: [NaN] becomes 0, finite values are truncated
    towards zero; the infinities are kept apart. *)
Inductive integer_or_infinity : Type :=
| MinusInfinity
| PlusInfinity
| Integer (z : Z).

Definition ToIntegerOrInfinity (a : number) : integer_or_infinity :=
  match a with
  | NaN => Integer 0
  | Inf true => MinusInfinity
  | Inf false => PlusInfinity
  | Fin x => Integer (Z.quot (Qnum x) (Zpos (Qden x)))
  end.

(** What [JSON.stringify] prints for a number: [null] (here [None]) for
    [NaN] and the infinities, the value otherwise. *)
Definition toJSON (a : number) : option Q :=
  match a with
  | Fin x => Some x
  | _ => None
  end.

End Num.
Export Num.

(** ** Strings *)

(** A code unit of UTF-16, and a string: the sequence of its code
    units. *)
Definition codeUnit : Type := N.

Definition string : Type := list codeUnit.

(** The string literals of this development are the strings of ASCII
    characters, one code unit for each character; a literal of one
    character also denotes its code unit. *)
Inductive literal : Type :=
| Empty
| Unit (c : N) (rest : literal).

Fixpoint readLiteral (l : list Byte.byte) : option literal :=
  match l with
  | [] => Some Empty
  | b :: r =>
      if (Byte.to_N b <? 128)%N then
        match readLiteral r with
        | Some rest => Some (Unit (Byte.to_N b) rest)
        | None => None
        end
      else None
  end.

Fixpoint printLiteral (s : literal) : option (list Byte.byte) :=
  match s with
  | Empty => Some []
  | Unit c rest =>
      match Byte.of_N c, printLiteral rest with
      | Some b, Some l => if (c <? 128)%N then Some (b :: l) else None
      | _, _ => None
      end
  end.

Definition readUnit (l : list Byte.byte) : option N :=
  match l with
  | [b] => if (Byte.to_N b <? 128)%N then Some (Byte.to_N b) else None
  | _ => None
  end.

Definition printUnit (c : N) : option (list Byte.byte) :=
  if (c <? 128)%N then option_map (fun b => [b]) (Byte.of_N c) else None.

Declare Scope units_scope.
Delimit Scope units_scope with units.
Bind Scope units_scope with string.
#[warnings="-via-type-remapping,-via-type-mismatch"]
String Notation string readLiteral printLiteral
  (via literal mapping [[nil] => Empty, [cons] => Unit]) : units_scope.

Declare Scope unit_scope.
Delimit Scope unit_scope with unit.
String Notation N readUnit printUnit : unit_scope.

Local Open Scope units_scope.

(** The code units of a string of ASCII characters of the standard
    library. *)
Fixpoint chars (s : String.string) : string :=
  match s with
  | EmptyString => []
  | String c rest => N_of_ascii c :: chars rest
  end.

Definition code (c : codeUnit) : Z := Z.of_N c.

(** The white space and the line terminators that [TrimString] strips:
    TAB, LF, VT, FF, CR, SP, NBSP, U+1680, U+2000 to U+200A, LS, PS,
    U+202F, U+205F, U+3000 and the byte order mark U+FEFF. *)
Definition isWhiteSpace (c : codeUnit) : bool :=
  let n := code c in
  (n =? 9) || (n =? 10) || (n =? 11) || (n =? 12) || (n =? 13) || (n =? 32)
  || (n =? 160) || (n =? 5760) || ((8192 <=? n) && (n <=? 8202))
  || (n =? 8232) || (n =? 8233) || (n =? 8239) || (n =? 8287)
  || (n =? 12288) || (n =? 65279).

Fixpoint trimStart (l : string) : string :=
  match l with
  | c :: r => if isWhiteSpace c then trimStart r else l
  | [] => []
  end.

(** The value of a digit in radix 10 or 16, if it is one. *)
Definition digitValue (radix : Z) (c : codeUnit) : option Z :=
  let n := code c in
  if (48 <=? n) && (n <=? 57) then Some (n - 48)
  else if (radix =? 16) && (97 <=? n) && (n <=? 102) then Some (n - 87)
  else if (radix =? 16) && (65 <=? n) && (n <=? 70) then Some (n - 55)
  else None.

Definition isDigit (c : codeUnit) : bool := bool_decide (is_Some (digitValue 10 c)).

(** Longest prefix of radix-[radix] digits, as digit values, and the rest. *)
Fixpoint spanDigits (radix : Z) (l : string) : list Z * string :=
  match l with
  | c :: r =>
      match digitValue radix c with
      | Some d => let '(ds, rest) := spanDigits radix r in (d :: ds, rest)
      | None => ([], l)
      end
  | [] => ([], [])
  end.

Definition digitsValue (radix : Z) (ds : list Z) : Z :=
  fold_left (fun acc d => radix * acc + d) ds 0.

Fixpoint takeWhile {A : Type} (f : A -> bool) (l : list A) : list A :=
  match l with
  | x :: r => if f x then x :: takeWhile f r else []
  | [] => []
  end.

Fixpoint dropWhile {A : Type} (f : A -> bool) (l : list A) : list A :=
  match l with
  | x :: r => if f x then dropWhile f r else l
  | [] => []
  end.

(** An optional leading [+] or [-]: whether it is a minus, and the rest. *)
Definition stripSign (l : string) : bool * string :=
  match l with
  | c :: r =>
      if bool_decide (c = "-"%unit) then (true, r)
      else if bool_decide (c = "+"%unit) then (false, r)
      else (false, l)
  | [] => (false, [])
  end.

Definition signed (negative : bool) (z : Z) : Z := if negative then - z else z.

(** [parseInt(string)] with no radix argument. *)
Definition parseIntString (s : string) : number :=
  let '(negative, l) := stripSign (trimStart s) in
  let '(R, l) :=
    match l with
    | a :: b :: r =>
        if bool_decide (a = "0"%unit)
           && (bool_decide (b = "x"%unit) || bool_decide (b = "X"%unit))
        then (16, r) else (10, l)
    | _ => (10, l)
    end in
  let '(ds, _) := spanDigits R l in
  match ds with
  | [] => NaN
  | _ => ofZ (signed negative (digitsValue R ds))
  end.

Fixpoint isPrefix (p l : string) : bool :=
  match p, l with
  | [], _ => true
  | a :: p', b :: l' => bool_decide (a = b) && isPrefix p' l'
  | _ :: _, [] => false
  end.

(** The value [m * 10^e] of a decimal literal. *)
Definition decimal (m e : Z) : Q :=
  if 0 <=? e then inject_Z (m * 10 ^ e)
  else Qred (Qmake m (Z.to_pos (10 ^ (- e)))).

(** The exponent part of a decimal literal: [e] or [E], an optional sign
    and at least one digit; 0 when there is no well-formed exponent. *)
Definition exponentPart (l : string) : Z :=
  match l with
  | c :: r =>
      if bool_decide (c = "e"%unit) || bool_decide (c = "E"%unit) then
        let '(negative, r) := stripSign r in
        let '(ds, _) := spanDigits 10 r in
        signed negative (digitsValue 10 ds)
      else 0
  | [] => 0
  end.

(** [parseFloat(string)]: the value of the longest prefix of the trimmed
    string that is a [StrDecimalLiteral], [NaN] when there is none. *)
Definition parseFloat (s : string) : number :=
  let '(negative, l) := stripSign (trimStart s) in
  if isPrefix "Infinity" l then Inf negative
  else
    let '(ip, l) := spanDigits 10 l in
    let '(fp, l) :=
      match l with
      | c :: r =>
          if bool_decide (c = "."%unit) then
            let '(fp, r') := spanDigits 10 r in
            match ip, fp with
            | [], [] => ([], l)
            | _, _ => (fp, r')
            end
          else ([], l)
      | [] => ([], l)
      end in
    match ip ++ fp with
    | [] => NaN
    | ds =>
        let m := signed negative (digitsValue 10 ds) in
        Fin (decimal m (exponentPart l - Z.of_nat (length fp)))
    end.

(** [parseInt] is applied either to a query-string value or, when the
    parameter is absent, to the integer literal of the destructuring
    default; it first converts its argument with [ToString]. *)
Inductive value : Type :=
| Literal (z : Z)
| Str (s : string).

Definition ToString (v : value) : string :=
  match v with
  | Literal z => chars (NilZero.string_of_int (Z.to_int z))
  | Str s => s
  end.

Definition parseInt (v : value) : number := parseIntString (ToString v).

(** [a === b] on strings *)
Definition sameString (a b : string) : bool := bool_decide (a = b).

(** A string is truthy when it is not empty; [undefined] is falsy. *)
Definition nonEmpty (s : string) : bool := negb (sameString s "").

Definition truthy (o : option string) : bool :=
  match o with
  | Some s => nonEmpty s
  | None => false
  end.

(** [s.includes(t)]: [t] occurs in [s] as a substring. *)
Fixpoint occursIn (t l : string) : bool :=
  isPrefix t l ||
  match l with
  | [] => false
  | _ :: r => occursIn t r
  end.

Definition String_includes (s t : string) : bool := occursIn t s.

(** [s.split(",")]: the pieces between the separators, at least one. *)
Fixpoint split (sep : codeUnit) (l : string) : list string :=
  match l with
  | [] => [[]]
  | c :: r =>
      if bool_decide (c = sep) then [] :: split sep r
      else
        match split sep r with
        | piece :: pieces => (c :: piece) :: pieces
        | [] => [[c]]
        end
  end.

(** [array.includes(s)] on an array of strings. *)
Definition Array_includes (l : list string) (s : string) : bool :=
  existsb (sameString s) l.

(** ** Arrays as values: [slice] and [sort] *)

(** The index a relative [start] or [end] argument of [slice] denotes in
    an array of length [len]: negative arguments count from the end. *)
Definition relativeIndex (len : Z) (i : integer_or_infinity) : Z :=
  match i with
  | MinusInfinity => 0
  | PlusInfinity => len
  | Integer z => if z <? 0 then Z.max (len + z) 0 else Z.min z len
  end.

(** The elements [array.slice(start, end)] copies. *)
Definition slice {A : Type} (l : list A) (start end_ : number) : list A :=
  let len := Z.of_nat (length l) in
  let k := relativeIndex len (ToIntegerOrInfinity start) in
  let final := relativeIndex len (ToIntegerOrInfinity end_) in
  take (Z.to_nat (Z.max (final - k) 0)) (drop (Z.to_nat k) l).

(** [array.sort(comparefn)] is a stable sort: for a consistent comparator
    its result is the stable sorted permutation, computed here by stable
    insertion.  An element moves behind another one only when the
    comparator returns a number greater than zero for the pair. *)
Fixpoint insertSorted {A : Type} (cmp : A -> A -> number) (x : A) (l : list A) : list A :=
  match l with
  | [] => [x]
  | y :: r => if gt (cmp x y) (ofZ 0) then y :: insertSorted cmp x r else x :: l
  end.

Definition sorted {A : Type} (cmp : A -> A -> number) (l : list A) : list A :=
  foldr (insertSorted cmp) [] l.

(** ** Data model *)

Module Product.
Record t : Type := mk {
  id : Z;
  title : string;
  price : Q;
  description : string;
  category : string;
  images : list string;
  createdAt : string;
  updatedAt : string
}.
End Product.

(** The record kept under a token in [apiKeys]; both instants are
    milliseconds since the epoch. *)
Record KeyData : Type := mkKeyData {
  expiresAt : number;
  createdAt : number
}.

(** References to array objects. *)
Definition loc : Type := positive.

(** The module-level state of [server.js] and its environment. *)
Record World : Type := mkWorld {
  arrays : gmap loc (list Product.t);      (* the heap of array objects *)
  products : loc;                          (* let products *)
  inMemoryProducts : option loc;           (* let inMemoryProducts *)
  productsFile : option (list Product.t);  (* products.json *)
  apiKeys : gmap string KeyData;           (* let apiKeys *)
  apiKeysFile : option (gmap string KeyData);  (* apiKeys.json *)
  clock : nat -> Z;                        (* readings of Date.now() to come *)
  uuids : nat -> string;                   (* results of uuidv4() to come *)
  faker : nat -> Product.t                 (* mock records to come *)
}.

(** What does not change while the server runs. *)
Record Env : Type := mkEnv {
  isVercel : bool;                             (* process.env.VERCEL === "1" *)
  MASTER_KEY : option string;                  (* process.env.MASTER_KEY *)
  localeCompare : string -> string -> Z;       (* a.localeCompare(b) *)
  toLowerCase : string -> string               (* s.toLowerCase() *)
}.

(** ** Requests and responses *)

(** [req.query] of [GET /api/products]. *)
Module Query.
Record t : Type := mk {
  limit : option string;
  offset : option string;
  sort : option string;
  order : option string;
  category : option string;
  minPrice : option string;
  maxPrice : option string;
  search : option string
}.
End Query.

(** The local variables of the handler after "Convert to appropriate
    types". *)
Module Params.
Record t : Type := mk {
  limit : number;
  offset : number;
  sort : string;
  order : string;
  category : option string;
  minPrice : option number;
  maxPrice : option number;
  search : option string
}.
End Params.

(** The [pagination] object as [res.json] prints it. *)
Module Pagination.
Record t : Type := mk {
  total : Z;
  limit : option Q;
  offset : option Q;
  totalPages : option Q
}.
End Pagination.

Module Listing.
Record t : Type := mk {
  products : list Product.t;
  pagination : Pagination.t
}.
End Listing.

(** The body of a successful key issuance; [expiresAt] is the instant
    that the server prints in ISO-8601. *)
Module Issued.
Record t : Type := mk {
  apiKey : string;
  expiresAt : Z
}.
End Issued.

Module Regenerated.
Record t : Type := mk {
  message : string;
  count : Z
}.
End Regenerated.

(** What a handler answers: [res.json(body)], or
    [res.status(status).json({ message })], or an exception that escapes
    the handler (Express answers 500). *)
Inductive Response (A : Type) : Type :=
| Json (body : A)
| Error (status : Z) (message : string)
| Thrown (error : string).
Arguments Json {A} body.
Arguments Error {A} status message.
Arguments Thrown {A} error.

(** What the middleware does with a request. *)
Inductive Verdict : Type :=
| Next
| Rejected (status : Z) (message : string).

(** Who answers a request: a middleware mounted before the API-key
    middleware, with some status, or the API-key middleware and the
    route. *)
Inductive Outcome (A : Type) : Type :=
| Intercepted (status : Z)
| Handled (reply : Response A).
Arguments Intercepted {A} status.
Arguments Handled {A} reply.

(** ** The state monad of the server *)

Definition M (A : Type) : Type := World -> A * World.

Definition ret {A : Type} (a : A) : M A := fun w => (a, w).

Definition bind {A B : Type} (m : M A) (k : A -> M B) : M B :=
  fun w => let '(a, w') := m w in k a w'.

Notation "'let*' x ':=' m 'in' k" := (bind m (fun x => k))
  (at level 10, x name, m at level 100, k at level 200).

Definition set_arrays (h : gmap loc (list Product.t)) (w : World) : World :=
  mkWorld h (products w) (inMemoryProducts w) (productsFile w)
          (apiKeys w) (apiKeysFile w) (clock w) (uuids w) (faker w).

Definition set_products (r : loc) (w : World) : World :=
  mkWorld (arrays w) r (inMemoryProducts w) (productsFile w)
          (apiKeys w) (apiKeysFile w) (clock w) (uuids w) (faker w).

Definition set_inMemoryProducts (r : option loc) (w : World) : World :=
  mkWorld (arrays w) (products w) r (productsFile w)
          (apiKeys w) (apiKeysFile w) (clock w) (uuids w) (faker w).

Definition set_productsFile (f : option (list Product.t)) (w : World) : World :=
  mkWorld (arrays w) (products w) (inMemoryProducts w) f
          (apiKeys w) (apiKeysFile w) (clock w) (uuids w) (faker w).

Definition set_apiKeys (k : gmap string KeyData) (w : World) : World :=
  mkWorld (arrays w) (products w) (inMemoryProducts w) (productsFile w)
          k (apiKeysFile w) (clock w) (uuids w) (faker w).

Definition set_apiKeysFile (f : option (gmap string KeyData)) (w : World) : World :=
  mkWorld (arrays w) (products w) (inMemoryProducts w) (productsFile w)
          (apiKeys w) f (clock w) (uuids w) (faker w).

Definition set_clock (c : nat -> Z) (w : World) : World :=
  mkWorld (arrays w) (products w) (inMemoryProducts w) (productsFile w)
          (apiKeys w) (apiKeysFile w) c (uuids w) (faker w).

Definition set_uuids (u : nat -> string) (w : World) : World :=
  mkWorld (arrays w) (products w) (inMemoryProducts w) (productsFile w)
          (apiKeys w) (apiKeysFile w) (clock w) u (faker w).

Definition set_faker (f : nat -> Product.t) (w : World) : World :=
  mkWorld (arrays w) (products w) (inMemoryProducts w) (productsFile w)
          (apiKeys w) (apiKeysFile w) (clock w) (uuids w) f.

Definition get {A : Type} (f : World -> A) : M A := fun w => (f w, w).
Definition modify (f : World -> World) : M unit := fun w => (tt, f w).

(** An oracle hands out its readings in order. *)
Definition next {A : Type} (o : nat -> A) : nat -> A := fun n => o (S n).

Definition Date_now : M Z :=
  fun w => (clock w 0%nat, set_clock (next (clock w)) w).

Definition uuidv4 : M string :=
  fun w => (uuids w 0%nat, set_uuids (next (uuids w)) w).

(** *** Array objects *)

(** The elements of the array a reference points to. *)
Definition elements (w : World) (r : loc) : list Product.t :=
  default [] (arrays w !! r).

Definition readArray (r : loc) : M (list Product.t) :=
  get (fun w => elements w r).

Definition writeArray (r : loc) (l : list Product.t) : M unit :=
  modify (fun w => set_arrays (<[r := l]> (arrays w)) w).

(** A new array object, at a reference no live array has. *)
Definition newArray (l : list Product.t) : M loc :=
  fun w => let r := fresh (dom (arrays w)) in
           (r, set_arrays (<[r := l]> (arrays w)) w).

(** [[...array]] *)
Definition spread (r : loc) : M loc :=
  let* l := readArray r in newArray l.

(** [array.filter(callback)] makes a new array. *)
Definition Array_filter (f : Product.t -> bool) (r : loc) : M loc :=
  let* l := readArray r in newArray (List.filter f l).

(** [array.sort(comparefn)] sorts the array in place. *)
Definition Array_sort (cmp : Product.t -> Product.t -> number) (r : loc) : M unit :=
  let* l := readArray r in writeArray r (sorted cmp l).

(** [array.slice(start, end)] makes a new array. *)
Definition Array_slice (start end_ : number) (r : loc) : M loc :=
  let* l := readArray r in newArray (slice l start end_).

(** [array.length] *)
Definition Array_length (r : loc) : M Z :=
  let* l := readArray r in ret (Z.of_nat (length l)).

(** [array.find(callback)] *)
Definition Array_find (f : Product.t -> bool) (r : loc) : M (option Product.t) :=
  let* l := readArray r in ret (List.find f l).

(** ** The server *)

Section Server.

Variable env : Env.

(** *** Persistence *)

(** [saveProductsToFile(products)]: in memory the saved value is the
    array itself, on disk it is a snapshot of its elements. *)
Definition saveProductsToFile (r : loc) : M unit :=
  if isVercel env then modify (set_inMemoryProducts (Some r))
  else let* l := readArray r in modify (set_productsFile (Some l)).

(** [saveApiKeysToFile(apiKeys)]: in memory [inMemoryApiKeys] is the
    object [apiKeys] itself, so that nothing changes; on disk a snapshot
    is written. *)
Definition saveApiKeysToFile : M unit :=
  if isVercel env then ret tt
  else modify (fun w => set_apiKeysFile (Some (apiKeys w)) w).

(** *** API-key middleware *)

(** The names every object inherits from [Object.prototype]; all of
    them are bound to truthy values. *)
Definition objectPrototype : list string :=
  [ "constructor"; "__defineGetter__"; "__defineSetter__"; "hasOwnProperty";
    "__lookupGetter__"; "__lookupSetter__"; "isPrototypeOf";
    "propertyIsEnumerable"; "toString"; "valueOf"; "__proto__";
    "toLocaleString" ].

(** The value of [apiKeys[apiKey]]. *)
Inductive Property : Type :=
| Undefined
| Inherited
| Own (keyData : KeyData).

Definition lookupKey (w : World) (apiKey : string) : Property :=
  match apiKeys w !! apiKey with
  | Some keyData => Own keyData
  | None => if Array_includes objectPrototype apiKey then Inherited else Undefined
  end.

Definition validateApiKey (path : string) (header : option string) : M Verdict :=
  if sameString path "/api/auth/generate-key" then ret Next
  else if negb (truthy header) then ret (Rejected 401 "API key is required")
  else
    let apiKey := default "" header in
    let* keyData := get (fun w => lookupKey w apiKey) in
    match keyData with
    | Undefined => ret (Rejected 401 "Invalid API key")
    | Inherited =>
        (* [keyData.expiresAt] is undefined and the comparison is false *)
        let* _ := Date_now in ret Next
    | Own keyData =>
        let* now := Date_now in
        if gt (ofZ now) (expiresAt keyData) then
          let* _ := modify (fun w => set_apiKeys (delete apiKey (apiKeys w)) w) in
          let* _ := saveApiKeysToFile in
          ret (Rejected 401 "API key has expired")
        else ret Next
    end.

(** *** POST /api/auth/generate-key *)

(** [masterKey !== process.env.MASTER_KEY] *)
Definition wrongMasterKey (masterKey : option string) : bool :=
  negb (bool_decide (masterKey = MASTER_KEY env)).

Definition durationMap (unit : codeUnit) : number :=
  if bool_decide (unit = "h"%unit) then ofZ (60 * 60 * 1000)
  else if bool_decide (unit = "d"%unit) then ofZ (24 * 60 * 60 * 1000)
  else ofZ (7 * 24 * 60 * 60 * 1000).

(** [expiresIn.match(/^(\d+)([hdw])$/)]: the two groups of a match. *)
Definition matchDuration (expiresIn : string) : option (string * codeUnit) :=
  let amount := takeWhile isDigit expiresIn in
  match amount, dropWhile isDigit expiresIn with
  | _ :: _, [unit] =>
      if bool_decide (unit = "h"%unit) || bool_decide (unit = "d"%unit)
         || bool_decide (unit = "w"%unit)
      then Some (amount, unit)
      else None
  | _, _ => None
  end.

(** [new Date(t).toISOString()] throws outside the range of dates. *)
Definition toISOString (t : number) : option Z :=
  match t with
  | Fin q =>
      if Qle_bool (Qabs q) (inject_Z 8640000000000000)
      then Some (Z.quot (Qnum q) (Zpos (Qden q))) else None
  | _ => None
  end.

Definition generateKey (expiresIn masterKey : option string) : M (Response Issued.t) :=
  let expiresIn := default "1d" expiresIn in
  if wrongMasterKey masterKey then ret (Error 403 "Invalid master key")
  else
    match matchDuration expiresIn with
    | None => ret (Error 400 "Invalid expiresIn format. Use format like 1h, 1d, 7d")
    | Some (amount, unit) =>
        let durationMs := mul (parseInt (Str amount)) (durationMap unit) in
        let* now := Date_now in
        let expiresAt := add (ofZ now) durationMs in
        let* apiKey := uuidv4 in
        let* created := Date_now in
        let* _ := modify (fun w =>
                    set_apiKeys (<[apiKey := mkKeyData expiresAt (ofZ created)]> (apiKeys w)) w) in
        let* _ := saveApiKeysToFile in
        match toISOString expiresAt with
        | Some t => ret (Json (Issued.mk apiKey t))
        | None => ret (Thrown "RangeError: Invalid time value")
        end
    end.

(** *** GET /api/products *)

(** The destructuring defaults and "Convert to appropriate types". *)
Definition convert (q : Query.t) : Params.t :=
  let limit := default (Literal 10) (Str <$> Query.limit q) in
  let offset := default (Literal 0) (Str <$> Query.offset q) in
  let sort := default "id" (Query.sort q) in
  let order := default "asc" (Query.order q) in
  let minPrice := Query.minPrice q in
  let maxPrice := Query.maxPrice q in
  Params.mk
    (parseInt limit)
    (parseInt offset)
    sort
    order
    (Query.category q)
    (if truthy minPrice then parseFloat <$> minPrice else None)
    (if truthy maxPrice then parseFloat <$> maxPrice else None)
    (Query.search q).

(** The four callbacks given to [filter]. *)
Definition inCategories (category : string) (product : Product.t) : bool :=
  let categories := split ","%unit category in
  Array_includes categories (Product.category product).

Definition atLeast (minPrice : number) (product : Product.t) : bool :=
  ge (Fin (Product.price product)) minPrice.

Definition atMost (maxPrice : number) (product : Product.t) : bool :=
  le (Fin (Product.price product)) maxPrice.

Definition matches (search : string) (product : Product.t) : bool :=
  let searchLower := toLowerCase env search in
  String_includes (toLowerCase env (Product.title product)) searchLower
  || String_includes (toLowerCase env (Product.description product)) searchLower.

(** "Filter products": a copy of the catalog, then one new array for
    each filter that applies.  The result is [filteredProducts]. *)
Definition filterProducts (p : Params.t) : M loc :=
  let* catalog := get products in
  let* filteredProducts := spread catalog in
  let* filteredProducts :=
    match Params.category p with
    | Some category =>
        if nonEmpty category
        then Array_filter (inCategories category) filteredProducts
        else ret filteredProducts
    | None => ret filteredProducts
    end in
  let* filteredProducts :=
    match Params.minPrice p with
    | Some minPrice => Array_filter (atLeast minPrice) filteredProducts
    | None => ret filteredProducts
    end in
  let* filteredProducts :=
    match Params.maxPrice p with
    | Some maxPrice => Array_filter (atMost maxPrice) filteredProducts
    | None => ret filteredProducts
    end in
  match Params.search p with
  | Some search =>
      if nonEmpty search
      then Array_filter (matches search) filteredProducts
      else ret filteredProducts
  | None => ret filteredProducts
  end.

(** The comparator given to [sort]. *)
Definition comparator (sort order : string) (a b : Product.t) : number :=
  let comparison :=
    if sameString sort "price" then
      sub (Fin (Product.price a)) (Fin (Product.price b))
    else if sameString sort "title" then
      ofZ (localeCompare env (Product.title a) (Product.title b))
    else
      sub (ofZ (Product.id a)) (ofZ (Product.id b)) in
  if sameString order "desc" then neg comparison else comparison.

(** "Sort products", in place. *)
Definition sortProducts (p : Params.t) (filteredProducts : loc) : M unit :=
  Array_sort (comparator (Params.sort p) (Params.order p)) filteredProducts.

(** "Pagination" and the reply. *)
Definition paginate (p : Params.t) (filteredProducts : loc) : M (Response Listing.t) :=
  let limit := Params.limit p in
  let offset := Params.offset p in
  let* total := Array_length filteredProducts in
  let* paginatedProducts := Array_slice offset (add offset limit) filteredProducts in
  let* page := readArray paginatedProducts in
  ret (Json (Listing.mk page
               (Pagination.mk
                  total
                  (toJSON limit)
                  (toJSON offset)
                  (toJSON (ceil (div (ofZ total) limit)))))).

Definition listProducts (q : Query.t) : M (Response Listing.t) :=
  let p := convert q in
  let* filteredProducts := filterProducts p in
  let* _ := sortProducts p filteredProducts in
  paginate p filteredProducts.

(** *** GET /api/products/:id *)

Definition getProduct (param : string) : M (Response Product.t) :=
  let id := parseInt (Str param) in
  let* catalog := get products in
  let* product := Array_find (fun p => strict_eq (ofZ (Product.id p)) id) catalog in
  match product with
  | None => ret (Error 404 "Product not found")
  | Some product => ret (Json product)
  end.

(** *** Mock data and POST /api/admin/regenerate-products *)

(** [generateProduct(id)]: the random fields come from the oracle. *)
Definition generateProduct (id : Z) : M Product.t :=
  fun w =>
    let r := faker w 0%nat in
    (Product.mk id (Product.title r) (Product.price r) (Product.description r)
       (Product.category r) (Product.images r) (Product.createdAt r)
       (Product.updatedAt r),
     set_faker (next (faker w)) w).

(** The loop of [Array.from] over the indices [index], ..., [index + n - 1]. *)
Fixpoint generateFrom (n : nat) (index : Z) : M (list Product.t) :=
  match n with
  | O => ret []
  | S n' =>
      let* product := generateProduct (index + 1) in
      let* rest := generateFrom n' (index + 1) in
      ret (product :: rest)
  end.

(** [ToLength] of the [length] property given to [Array.from]. *)
Definition ToLength (count : number) : Z :=
  match ToIntegerOrInfinity count with
  | MinusInfinity => 0
  | PlusInfinity => 2 ^ 53 - 1
  | Integer z => Z.min (Z.max z 0) (2 ^ 53 - 1)
  end.

(** [generateMockProducts(count)]: [Array.from] first makes an array of
    [ToLength(count)] slots, which throws a [RangeError] beyond the
    largest array length, and then fills it in index order. *)
Definition generateMockProducts (count : number) : M (option loc) :=
  let len := ToLength count in
  if 2 ^ 32 - 1 <? len then ret None
  else
    let* l := generateFrom (Z.to_nat len) 0 in
    let* r := newArray l in
    ret (Some r).

(** The body field [count] is a number (the value that [express.json()]
    has read), or absent. *)
Definition regenerateProducts (count : option Q) (masterKey : option string)
  : M (Response Regenerated.t) :=
  let count := default (ofZ 100) (Fin <$> count) in
  if wrongMasterKey masterKey then ret (Error 403 "Invalid master key")
  else
    let* generated := generateMockProducts count in
    match generated with
    | None => ret (Thrown "RangeError: Invalid array length")
    | Some r =>
        let* _ := modify (set_products r) in
        let* _ := saveProductsToFile r in
        let* n := Array_length r in
        ret (Json (Regenerated.mk "Products regenerated successfully" n))
    end.

End Server.

(** ** The rest of the server *)

(** [[...new Set(array)]]: the distinct strings of an array, each at the
    place of its first occurrence; [seen] are the strings met so far. *)
Fixpoint distinct (seen l : list string) : list string :=
  match l with
  | [] => []
  | x :: r =>
      if Array_includes seen x then distinct seen r
      else x :: distinct (x :: seen) r
  end.

Section Wiring.

Variable env : Env.

(** *** GET /api/categories *)

Definition getCategories : M (Response (list string)) :=
  let* catalog := get products in
  let* l := readArray catalog in
  ret (Json (distinct [] (map Product.category l))).

(** *** The middleware in front of a route

    The middleware run in the order in which they are mounted:
    [express.json()], [cors()], the Swagger UI under [/api-docs], then
    [validateApiKey], and the routes come last.  The first three belong
    to libraries; each of them either answers the request itself (a body
    that does not parse, a preflight request, a path under [/api-docs])
    or passes it on.  [earlier] is the status with which one of them
    answers, [None] when all three pass the request on.  A request that
    reaches [validateApiKey] gets to the handler of its route when the
    middleware calls [next()]; otherwise the answer of the middleware is
    the reply.  ([earlier] belongs to the request: it is never [None] for
    a path under [/api-docs].) *)
Definition guarded {A : Type} (earlier : option Z) (path : string)
           (header : option string) (handler : M (Response A)) : M (Outcome A) :=
  match earlier with
  | Some status => ret (Intercepted status)
  | None =>
      let* verdict := validateApiKey env path header in
      match verdict with
      | Next => let* reply := handler in ret (Handled reply)
      | Rejected status message => ret (Handled (Error status message))
      end
  end.

(** *** Loading when the module is initialised *)

(** [loadProductsFromFile()]: the array kept in memory if there is one,
    else a new array parsed from [products.json], else [null].  The file,
    when there is one, holds an array of products. *)
Definition loadProductsFromFile : M (option loc) :=
  let fromFile :=
    let* file := get productsFile in
    match file with
    | Some l => let* r := newArray l in ret (Some r)
    | None => ret None
    end in
  if isVercel env then
    let* kept := get inMemoryProducts in
    match kept with
    | Some r => ret (Some r)
    | None => fromFile
    end
  else fromFile.

(** [loadApiKeysFromFile()]: the object kept in memory, or the object
    parsed from [apiKeys.json], or [{}].  The file gives back the records
    as they were written when their instants are finite numbers (JSON
    has no notation for the others). *)
Definition loadApiKeysFromFile (inMemoryApiKeys : gmap string KeyData)
  : M (gmap string KeyData) :=
  if isVercel env then ret inMemoryApiKeys
  else get (fun w => default ∅ (apiKeysFile w)).

(** The top level of [server.js]: a new process has nothing in memory; it
    loads the catalog or generates 100 products and saves them, then
    loads the keys.  The result is [false] when the initialisation
    throws. *)
Definition startup : M bool :=
  let* _ := modify (set_inMemoryProducts None) in
  let* loaded := loadProductsFromFile in
  let* started :=
    match loaded with
    | Some r => let* _ := modify (set_products r) in ret true
    | None =>
        let* generated := generateMockProducts (ofZ 100) in
        match generated with
        | Some r =>
            let* _ := modify (set_products r) in
            let* _ := saveProductsToFile env r in
            ret true
        | None => ret false
        end
    end in
  if started then
    let* keys := loadApiKeysFromFile ∅ in
    let* _ := modify (set_apiKeys keys) in
    ret true
  else ret false.

End Wiring.

(** ** Observations used in the statements *)

(** Requests that differ from [q] in one parameter. *)
Definition setLimit (v : option string) (q : Query.t) : Query.t :=
  Query.mk v (Query.offset q) (Query.sort q) (Query.order q)
    (Query.category q) (Query.minPrice q) (Query.maxPrice q) (Query.search q).

Definition setOffset (v : option string) (q : Query.t) : Query.t :=
  Query.mk (Query.limit q) v (Query.sort q) (Query.order q)
    (Query.category q) (Query.minPrice q) (Query.maxPrice q) (Query.search q).

Definition setMinPrice (v : option string) (q : Query.t) : Query.t :=
  Query.mk (Query.limit q) (Query.offset q) (Query.sort q) (Query.order q)
    (Query.category q) v (Query.maxPrice q) (Query.search q).

Definition setMaxPrice (v : option string) (q : Query.t) : Query.t :=
  Query.mk (Query.limit q) (Query.offset q) (Query.sort q) (Query.order q)
    (Query.category q) (Query.minPrice q) v (Query.search q).

(** Requests that keep one filter of [q] and drop the other three. *)
Definition onlyCategory (q : Query.t) : Query.t :=
  Query.mk (Query.limit q) (Query.offset q) (Query.sort q) (Query.order q)
    (Query.category q) None None None.

Definition onlyMinPrice (q : Query.t) : Query.t :=
  Query.mk (Query.limit q) (Query.offset q) (Query.sort q) (Query.order q)
    None (Query.minPrice q) None None.

Definition onlyMaxPrice (q : Query.t) : Query.t :=
  Query.mk (Query.limit q) (Query.offset q) (Query.sort q) (Query.order q)
    None None (Query.maxPrice q) None.

Definition onlySearch (q : Query.t) : Query.t :=
  Query.mk (Query.limit q) (Query.offset q) (Query.sort q) (Query.order q)
    None None None (Query.search q).

(** The catalog: the elements of the array [products] refers to. *)
Definition catalog (w : World) : list Product.t := elements w (products w).

(** The elements of [filteredProducts] when the filters are done. *)
Definition surviving (env : Env) (q : Query.t) (w : World) : list Product.t :=
  let '(r, w') := filterProducts env (convert q) w in elements w' r.

(** The elements of [filteredProducts] when it has been sorted. *)
Definition arranged (env : Env) (q : Query.t) (w : World) : list Product.t :=
  let p := convert q in
  let '(r, w') := filterProducts env p w in
  let '(_, w'') := sortProducts env p r w' in
  elements w'' r.

(** The parts of the reply to [GET /api/products]. *)
Definition listing (env : Env) (q : Query.t) (w : World) : option Listing.t :=
  match fst (listProducts env q w) with
  | Json body => Some body
  | _ => None
  end.

Definition page (env : Env) (q : Query.t) (w : World) : list Product.t :=
  match listing env q w with
  | Some body => Listing.products body
  | None => []
  end.

(** The pure content of the handler: what it keeps of a catalog [l], in
    which order, and what it answers. *)
Definition keeps (env : Env) (p : Params.t) (x : Product.t) : bool :=
  match Params.category p with
  | Some category => if nonEmpty category then inCategories category x else true
  | None => true
  end
  && match Params.minPrice p with
     | Some minPrice => atLeast minPrice x
     | None => true
     end
  && match Params.maxPrice p with
     | Some maxPrice => atMost maxPrice x
     | None => true
     end
  && match Params.search p with
     | Some search => if nonEmpty search then matches env search x else true
     | None => true
     end.

Definition answer (p : Params.t) (l : list Product.t) : Listing.t :=
  let total := Z.of_nat (length l) in
  Listing.mk
    (slice l (Params.offset p) (add (Params.offset p) (Params.limit p)))
    (Pagination.mk total (toJSON (Params.limit p)) (toJSON (Params.offset p))
       (toJSON (ceil (div (ofZ total) (Params.limit p))))).

(** [preserves w0 w]: nothing of [w0] has changed in [w], except that
    array objects may have been added. *)
Definition preserves (w0 w : World) : Prop :=
  products w = products w0
  /\ (forall r l, arrays w0 !! r = Some l -> arrays w !! r = Some l)
  /\ inMemoryProducts w = inMemoryProducts w0
  /\ productsFile w = productsFile w0
  /\ apiKeys w = apiKeys w0
  /\ apiKeysFile w = apiKeysFile w0
  /\ clock w = clock w0
  /\ uuids w = uuids w0
  /\ faker w = faker w0.

(** [local w0 m post]: run after a computation that preserved [w0], [m]
    preserves [w0] too, and its result satisfies [post].  Such a
    computation writes only to arrays that [w0] does not have. *)
Definition local (w0 : World) {A : Type} (m : M A) (post : A -> Prop) : Prop :=
  forall w, preserves w0 w -> preserves w0 (snd (m w)) /\ post (fst (m w)).

(** [k] is the ceiling of [t / L], for [L] other than 0. *)
Definition isCeiling (k t L : Z) : Prop :=
  (0 < L /\ (k - 1) * L < t <= k * L) \/ (L < 0 /\ k * L <= t < (k - 1) * L).

(** [totalPages] of the reply, [None] when it is printed as [null]. *)
Definition totalPages (env : Env) (q : Query.t) (w : World) : option Q :=
  match listing env q w with
  | Some body => Pagination.totalPages (Listing.pagination body)
  | None => None
  end.

(** [total] of the reply. *)
Definition total (env : Env) (q : Query.t) (w : World) : option Z :=
  Pagination.total <$> (Listing.pagination <$> listing env q w).

(** The grammar of durations and its units, in milliseconds. *)
Definition isUnit (c : codeUnit) : Prop := c = "h"%unit \/ c = "d"%unit \/ c = "w"%unit.

Definition multiplier (unit : codeUnit) : Z :=
  if bool_decide (unit = "h"%unit) then 3600000
  else if bool_decide (unit = "d"%unit) then 86400000
  else 604800000.

(** The number a sequence of decimal digits denotes. *)
Definition amountOf (digits : string) : Z :=
  fold_left (fun acc c => 10 * acc + (code c - 48)) digits 0.

(** [expiresAt - createdAt] of a record. *)
Definition lifetime (keyData : KeyData) : number :=
  sub (expiresAt keyData) (createdAt keyData).

(** [notAfter cmp a b]: [sort] with the comparator [cmp] does not place
    [a] after [b]. *)
Definition notAfter {A : Type} (cmp : A -> A -> number) (a b : A) : Prop :=
  gt (cmp a b) (ofZ 0) = false.

(** [text] contains [fragment]: the code units of [fragment] are
    consecutive code units of [text]. *)
Definition contains (text fragment : string) : Prop :=
  exists before after, text = before ++ fragment ++ after.

(** The ASCII part of [toLowerCase]: the letters [A] to [Z] become [a] to
    [z] and the other ASCII characters stay. *)
Definition isASCII (s : string) : Prop := Forall (fun c => code c < 128) s.

Definition lowerASCII (c : codeUnit) : codeUnit :=
  if (65 <=? code c) && (code c <=? 90) then (c + 32)%N else c.

(** A host whose [toLowerCase] has this ASCII part, as Unicode
    prescribes. *)
Definition foldsASCII (env : Env) : Prop :=
  forall s, isASCII s -> toLowerCase env s = map lowerASCII s.

(** [Number.isSafeInteger(z)]: within this range doubles hold the
    integers exactly, and [parseInt], [+] and [*] are exact when their
    result is. *)
Definition isSafeInteger (z : Z) : Prop := Z.abs z <= 2 ^ 53 - 1.

(** The rationals that a double holds: [m * 2^e] with a significand of
    at most 53 bits and an exponent of the binary64 format.  [parseFloat]
    reads a decimal literal with such a value exactly. *)
Definition isDouble (q : Q) : Prop :=
  exists m e : Z,
    Z.abs m < 2 ^ 53 /\ -1074 <= e <= 971 /\ (q == inject_Z m * (2 # 1) ^ e)%Q.

(** Every record of the key store has integer instants, which JSON
    writes and reads back as they are. *)
Definition integerInstants (w : World) : Prop :=
  forall k keyData,
    apiKeys w !! k = Some keyData ->
    exists e c, expiresAt keyData = ofZ e /\ createdAt keyData = ofZ c.

(** Every record of the key store has an integer expiry instant. *)
Definition integerExpiry (w : World) : Prop :=
  forall k keyData, apiKeys w !! k = Some keyData -> exists e, expiresAt keyData = ofZ e.

(** On disk, [apiKeys.json] holds the key store. *)
Definition keysSaved (w : World) : Prop := apiKeysFile w = Some (apiKeys w).

(** On disk, [products.json] holds the catalog. *)
Definition catalogSaved (w : World) : Prop := productsFile w = Some (catalog w).

(** The strings of the grammar of durations: one or more decimal digits
    and a unit. *)
Definition inGrammar (s : string) : Prop :=
  exists digits unit,
    Forall (fun c => isDigit c = true) digits /\ digits <> [] /\ isUnit unit
    /\ s = digits ++ [unit].

(** The number a product is sorted by when [sort] is not ["title"]: its
    price for ["price"], its id otherwise. *)
Definition sortKey (sort : option string) (p : Product.t) : Q :=
  if bool_decide (sort = Some "price") then Product.price p
  else inject_Z (Product.id p).

(** No two products at different places of [l] have equal sort keys. *)
Definition noTies (sort : option string) (l : list Product.t) : Prop :=
  forall i j a b, l !! i = Some a -> l !! j = Some b -> i <> j ->
                  ~ (sortKey sort a == sortKey sort b)%Q.

Definition setOrder (v : option string) (q : Query.t) : Query.t :=
  Query.mk (Query.limit q) (Query.offset q) (Query.sort q) v
    (Query.category q) (Query.minPrice q) (Query.maxPrice q) (Query.search q).

(** [pieces.join(",")] *)
Fixpoint join (pieces : list string) : string :=
  match pieces with
  | [] => []
  | [piece] => piece
  | piece :: rest => piece ++ ","%unit :: join rest
  end.

(** ** Sample data *)

Module Sample.

(** Code-unit order stands for the collation of the host, and the ASCII
    part of the case mapping for its Unicode tables. *)
Fixpoint codeUnitCompare (a b : string) : Z :=
  match a, b with
  | [], [] => 0
  | [], _ :: _ => -1
  | _ :: _, [] => 1
  | x :: a', y :: b' =>
      if (code x <? code y) then -1
      else if (code y <? code x) then 1
      else codeUnitCompare a' b'
  end.

Definition env : Env := mkEnv false (Some "secret") codeUnitCompare (map lowerASCII).

Definition product (id : Z) (title : string) (price : Q) (category : string) : Product.t :=
  Product.mk id title price "A sample product" category
    ["https://example.com/1.png"] "2024-01-01T00:00:00.000Z" "2024-01-02T00:00:00.000Z".

Definition lamp : Product.t := product 1 "Lamp" 20 "Home & Kitchen".
Definition novel : Product.t := product 2 "Novel" (25 # 2) "Books".
Definition phone : Product.t := product 3 "Phone" 300 "Electronics".

(** A world whose catalog is [catalog], with one key ["k1"] that expires
    at instant 1000, and a clock that reads 1000, 1001, ... *)
Definition world (catalog : list Product.t) : World :=
  mkWorld {[ 1%positive := catalog ]} 1%positive None None
    {[ "k1" := mkKeyData (ofZ 1000) (ofZ 0) ]} None
    (fun n => 1000 + Z.of_nat n)
    (fun n => "uuid-" ++ chars (NilZero.string_of_int (Z.to_int (Z.of_nat n))))
    (fun n => product 0 "Mock" (Z.of_nat n # 1) "Books").

Definition query : Query.t :=
  Query.mk None None None None None None None None.

End Sample.


(** * Properties *)

(** ** Numbers *)

Lemma Qred_inject_Z (z : Z) : Qred (inject_Z z) = inject_Z z.
Proof.
  apply Qred_identity. simpl. apply Z.gcd_1_r.
Qed.

Lemma add_ofZ (a b : Z) : add (ofZ a) (ofZ b) = ofZ (a + b).
Proof.
  unfold add, ofZ. f_equal.
  rewrite <- (Qred_inject_Z (a + b)). apply Qred_complete.
  rewrite inject_Z_plus. reflexivity.
Qed.

Lemma mul_ofZ (a b : Z) : mul (ofZ a) (ofZ b) = ofZ (a * b).
Proof.
  unfold mul, ofZ. f_equal.
  rewrite <- (Qred_inject_Z (a * b)). apply Qred_complete.
  rewrite inject_Z_mult. reflexivity.
Qed.

Lemma neg_ofZ (a : Z) : neg (ofZ a) = ofZ (- a).
Proof.
  unfold neg, ofZ. f_equal.
  rewrite <- (Qred_inject_Z (- a)). apply Qred_complete.
  rewrite inject_Z_opp. reflexivity.
Qed.

Lemma sub_ofZ (a b : Z) : sub (ofZ a) (ofZ b) = ofZ (a - b).
Proof.
  unfold sub. rewrite neg_ofZ, add_ofZ. f_equal.
Qed.

Lemma gt_ofZ (a b : Z) : gt (ofZ a) (ofZ b) = (b <? a).
Proof.
  unfold gt, ge, ofZ. unfold Qle_bool. simpl.
  rewrite !Z.mul_1_r. destruct (Z.ltb_spec b a); destruct (Z.leb_spec a b); simpl; lia.
Qed.

Lemma ToIntegerOrInfinity_ofZ (z : Z) : ToIntegerOrInfinity (ofZ z) = Integer z.
Proof.
  unfold ToIntegerOrInfinity, ofZ. simpl. f_equal. apply Z.quot_1_r.
Qed.

(** ** Reading integers *)

Lemma isDigit_code (c : codeUnit) :
  isDigit c = true -> 48 <= code c <= 57 /\ digitValue 10 c = Some (code c - 48).
Proof.
  unfold isDigit, digitValue. intros H. apply bool_decide_eq_true in H.
  destruct (Z.leb_spec 48 (code c)); destruct (Z.leb_spec (code c) 57); simpl in *;
    try (split; [lia|reflexivity]); destruct H as [? H]; discriminate H.
Qed.

Lemma digit_differs (c d : codeUnit) :
  isDigit c = true -> (code d <? 48) || (57 <? code d) = true ->
  bool_decide (c = d) = false.
Proof.
  intros Hc Hd. apply bool_decide_eq_false. intros ->.
  apply isDigit_code in Hc. destruct Hc as [Hc _].
  apply Bool.orb_true_iff in Hd. destruct Hd as [Hd|Hd]; apply Z.ltb_lt in Hd; lia.
Qed.

Lemma digit_not_space (c : codeUnit) : isDigit c = true -> isWhiteSpace c = false.
Proof.
  intros Hc. apply isDigit_code in Hc. destruct Hc as [Hc _].
  unfold isWhiteSpace.
  repeat match goal with
         | |- context [?a =? ?b] => destruct (Z.eqb_spec a b); [lia|]
         end.
  destruct (Z.leb_spec 8192 (code c)); [lia|]. reflexivity.
Qed.

Lemma unit_not_digit (u : codeUnit) : isUnit u -> isDigit u = false.
Proof. intros [-> | [-> | ->]]; reflexivity. Qed.

Lemma takeWhile_digits (digits rest : string) :
  Forall (fun c => isDigit c = true) digits ->
  match rest with [] => True | c :: _ => isDigit c = false end ->
  takeWhile isDigit (digits ++ rest) = digits
  /\ dropWhile isDigit (digits ++ rest) = rest.
Proof.
  intros Hd Hrest. induction Hd as [|c l Hc Hl IH]; cbn [app takeWhile dropWhile].
  - destruct rest as [|c r]; [split; reflexivity|].
    cbn [takeWhile dropWhile]. rewrite Hrest. split; reflexivity.
  - rewrite Hc. destruct IH as [IH1 IH2]. rewrite IH1, IH2. split; reflexivity.
Qed.

Lemma spanDigits_digits (digits : string) :
  Forall (fun c => isDigit c = true) digits ->
  spanDigits 10 digits = (map (fun c => code c - 48) digits, []).
Proof.
  intros Hd. induction Hd as [|c l Hc Hl IH]; cbn [spanDigits map]; [reflexivity|].
  destruct (isDigit_code c Hc) as [_ ->]. rewrite IH. reflexivity.
Qed.

Lemma digitsValue_amountOf (digits : string) :
  digitsValue 10 (map (fun c => code c - 48) digits) = amountOf digits.
Proof.
  unfold digitsValue, amountOf. generalize 0.
  induction digits as [|c l IH]; intros acc; simpl; [reflexivity|].
  apply IH.
Qed.

(** [parseInt] reads a non-empty sequence of decimal digits as the number
    it denotes. *)
Lemma parseInt_digits (digits : string) :
  Forall (fun c => isDigit c = true) digits ->
  digits <> [] ->
  parseInt (Str digits) = ofZ (amountOf digits).
Proof.
  intros Hd Hne. unfold parseInt, ToString, parseIntString.
  assert (Hsign : trimStart digits = digits /\ stripSign digits = (false, digits)).
  { destruct Hd as [|c l Hc Hl]; [contradiction|].
    cbn [trimStart stripSign]. rewrite (digit_not_space c Hc).
    rewrite !(digit_differs c) by (assumption || reflexivity). split; reflexivity. }
  destruct Hsign as [Ht Hs]. rewrite Ht, Hs.
  assert (Hx : match digits with
               | a :: b :: r =>
                   if bool_decide (a = "0"%unit)
                      && (bool_decide (b = "x"%unit) || bool_decide (b = "X"%unit))
                   then (16, r) else (10, digits)
               | _ => (10, digits)
               end = (10, digits)).
  { destruct Hd as [|a l Ha Hl]; [reflexivity|].
    destruct Hl as [|b r Hb Hr]; [reflexivity|].
    rewrite !(digit_differs b) by (assumption || reflexivity).
    rewrite Bool.andb_false_r. reflexivity. }
  rewrite Hx, (spanDigits_digits digits Hd), digitsValue_amountOf.
  destruct digits; [contradiction|reflexivity].
Qed.

(** [parseInt] and [parseFloat] skip the white space of Unicode before
    the number: here a no-break space, and an ideographic space followed
    by a byte order mark. *)
Example leading_white_space :
  parseInt (Str (160%N :: "5")) = ofZ 5
  /\ parseFloat (12288%N :: 65279%N :: "2.5") = Fin (5 # 2).
Proof. split; reflexivity. Qed.

(** *** Decimal numerals

    [parseInt] reads back the decimal numeral that [ToString] prints for
    a non-negative integer; such numerals are the query strings
    ["0"], ["10"], ["20"], ... that a client stepping through the pages
    sends. *)

Lemma fold_uint (d : Decimal.uint) (a : Z) :
  fold_left (fun acc c => 10 * acc + (code c - 48))
            (chars (NilEmpty.string_of_uint d)) a
  = Z.of_N (DecimalPos.Unsigned.of_lu (Decimal.rev d))
    + a * 10 ^ Z.of_N (DecimalPos.Unsigned.usize d).
Proof.
  revert a. induction d as [|d IH|d IH|d IH|d IH|d IH|d IH|d IH|d IH|d IH|d IH];
    intros a; [simpl; lia|..];
    cbn [NilEmpty.string_of_uint chars fold_left];
    fold (chars (NilEmpty.string_of_uint d)); rewrite IH;
    match goal with
    | |- context [DecimalPos.Unsigned.of_lu (Decimal.rev (?D d))] =>
        change (Decimal.rev (D d)) with (Decimal.revapp d (D Decimal.Nil));
        rewrite (DecimalPos.Unsigned.of_lu_revapp d (D Decimal.Nil))
    end;
    cbn [DecimalPos.Unsigned.usize];
    rewrite N2Z.inj_add, N2Z.inj_mul, N2Z.inj_pow, N2Z.inj_succ, Z.pow_succ_r
      by apply N2Z.is_nonneg;
    change (Z.of_N 10) with 10;
    generalize (Z.of_N (DecimalPos.Unsigned.of_lu (Decimal.rev d)));
    generalize (10 ^ Z.of_N (DecimalPos.Unsigned.usize d));
    intros P X;
    match goal with
    | |- context [Z.of_N ?n] =>
        let v := eval vm_compute in (Z.of_N n) in change (Z.of_N n) with v
    end;
    match goal with
    | |- context [code ?c] =>
        let v := eval vm_compute in (code c) in change (code c) with v
    end;
    ring.
Qed.

Lemma uint_digits (d : Decimal.uint) :
  Forall (fun c => isDigit c = true) (chars (NilEmpty.string_of_uint d)).
Proof.
  induction d; cbn [NilEmpty.string_of_uint chars];
    constructor; (reflexivity || assumption).
Qed.

Lemma amountOf_numeral (p : positive) :
  amountOf (chars (NilEmpty.string_of_uint (Pos.to_uint p))) = Zpos p.
Proof.
  unfold amountOf. rewrite fold_uint, Z.mul_0_l, Z.add_0_r.
  rewrite <- DecimalPos.Unsigned.of_uint_alt, DecimalPos.Unsigned.of_to.
  reflexivity.
Qed.

Lemma parseInt_numeral (z : Z) :
  0 <= z -> parseInt (Str (ToString (Literal z))) = ofZ z.
Proof.
  intros Hz. destruct z as [|p|p]; [reflexivity| |lia].
  cbn [ToString Z.to_int NilZero.string_of_int].
  assert (Hn : NilZero.string_of_uint (Pos.to_uint p)
               = NilEmpty.string_of_uint (Pos.to_uint p)).
  { pose proof (DecimalPos.Unsigned.to_uint_nonnil p) as Hnil.
    destruct (Pos.to_uint p); [contradiction|reflexivity..]. }
  rewrite Hn.
  rewrite parseInt_digits.
  - rewrite amountOf_numeral. reflexivity.
  - apply uint_digits.
  - pose proof (DecimalPos.Unsigned.to_uint_nonnil p) as Hnil.
    destruct (Pos.to_uint p); [contradiction|discriminate..].
Qed.

(** ** The heap of arrays *)

Lemma elements_insert (w : World) (h : gmap loc (list Product.t)) (r : loc) (l : list Product.t) :
  elements (set_arrays (<[r := l]> h) w) r = l.
Proof.
  unfold elements. simpl. rewrite lookup_insert_eq. reflexivity.
Qed.

Lemma preserves_refl (w : World) : preserves w w.
Proof. unfold preserves. tauto. Qed.

Lemma preserves_fresh (w0 w : World) :
  preserves w0 w -> arrays w0 !! fresh (dom (arrays w)) = None.
Proof.
  intros (_ & Harr & _).
  destruct (arrays w0 !! fresh (dom (arrays w))) as [l|] eqn:E; [|reflexivity].
  apply Harr in E. exfalso.
  apply (is_fresh (dom (arrays w))). apply elem_of_dom. eauto.
Qed.

Lemma preserves_write (w0 w : World) (r : loc) (l : list Product.t) :
  preserves w0 w -> arrays w0 !! r = None ->
  preserves w0 (set_arrays (<[r := l]> (arrays w)) w).
Proof.
  intros (Hp & Harr & Hrest) Hr. split; [exact Hp|]. split; [|exact Hrest].
  intros r' l' E. simpl.
  rewrite lookup_insert_ne; [auto|]. intros ->. congruence.
Qed.

Lemma local_ret (w0 : World) {A : Type} (a : A) (post : A -> Prop) :
  post a -> local w0 (ret a) post.
Proof. intros Ha w Hw. split; assumption. Qed.

Lemma local_get (w0 : World) {A : Type} (f : World -> A) :
  local w0 (get f) (fun _ => True).
Proof. intros w Hw. split; [assumption|exact I]. Qed.

Lemma local_bind (w0 : World) {A B : Type} (m : M A) (k : A -> M B)
      (mid : A -> Prop) (post : B -> Prop) :
  local w0 m mid -> (forall a, mid a -> local w0 (k a) post) ->
  local w0 (bind m k) post.
Proof.
  intros Hm Hk w Hw. unfold bind.
  destruct (Hm w Hw) as [Hw' Ha]. destruct (m w) as [a w']. simpl in *.
  exact (Hk a Ha w' Hw').
Qed.

Lemma local_weaken (w0 : World) {A : Type} (m : M A) (post post' : A -> Prop) :
  local w0 m post -> (forall a, post a -> post' a) -> local w0 m post'.
Proof.
  intros Hm Himp w Hw. destruct (Hm w Hw). split; auto.
Qed.

Lemma local_newArray (w0 : World) (l : list Product.t) :
  local w0 (newArray l) (fun r => arrays w0 !! r = None).
Proof.
  intros w Hw. unfold newArray. simpl.
  pose proof (preserves_fresh w0 w Hw) as Hf.
  split; [apply preserves_write; assumption|exact Hf].
Qed.

Lemma local_readArray (w0 : World) (r : loc) :
  local w0 (readArray r) (fun _ => True).
Proof. apply local_get. Qed.

Lemma local_writeArray (w0 : World) (r : loc) (l : list Product.t) :
  arrays w0 !! r = None -> local w0 (writeArray r l) (fun _ => True).
Proof.
  intros Hr w Hw. unfold writeArray, modify. simpl.
  split; [apply preserves_write; assumption|exact I].
Qed.

Lemma local_spread (w0 : World) (r : loc) :
  local w0 (spread r) (fun r' => arrays w0 !! r' = None).
Proof.
  unfold spread. eapply local_bind; [apply local_readArray|].
  intros l _. apply local_newArray.
Qed.

Lemma local_filter (w0 : World) (f : Product.t -> bool) (r : loc) :
  local w0 (Array_filter f r) (fun r' => arrays w0 !! r' = None).
Proof.
  unfold Array_filter. eapply local_bind; [apply local_readArray|].
  intros l _. apply local_newArray.
Qed.

Lemma local_sort (w0 : World) (cmp : Product.t -> Product.t -> number) (r : loc) :
  arrays w0 !! r = None -> local w0 (Array_sort cmp r) (fun _ => True).
Proof.
  intros Hr. unfold Array_sort. eapply local_bind; [apply local_readArray|].
  intros l _. apply local_writeArray. assumption.
Qed.

Lemma local_slice (w0 : World) (a b : number) (r : loc) :
  local w0 (Array_slice a b r) (fun r' => arrays w0 !! r' = None).
Proof.
  unfold Array_slice. eapply local_bind; [apply local_readArray|].
  intros l _. apply local_newArray.
Qed.

Lemma local_length (w0 : World) (r : loc) :
  local w0 (Array_length r) (fun _ => True).
Proof.
  unfold Array_length. eapply local_bind; [apply local_readArray|].
  intros l _. apply local_ret. exact I.
Qed.

(** ** GET /api/products: what the handler computes *)

Lemma filter_filter {A : Type} (f g : A -> bool) (l : list A) :
  List.filter g (List.filter f l) = List.filter (fun x => f x && g x) l.
Proof.
  induction l as [|x l IH]; simpl; [reflexivity|].
  destruct (f x); simpl; [destruct (g x)|]; rewrite IH; reflexivity.
Qed.

Lemma filter_true {A : Type} (l : list A) : List.filter (fun _ => true) l = l.
Proof.
  induction l as [|x l IH]; simpl; [reflexivity|]. rewrite IH. reflexivity.
Qed.

(** Running one filter, or none, on the array [r]. *)
Lemma filter_step (f : Product.t -> bool) (r : loc) (w : World) :
  let '(r', w') := Array_filter f r w in
  elements w' r' = List.filter f (elements w r).
Proof.
  unfold Array_filter, bind, readArray, get, newArray.
  apply elements_insert.
Qed.

Lemma skip_step (r : loc) (w : World) :
  let '(r', w') := ret r w in
  elements w' r' = List.filter (fun _ => true) (elements w r).
Proof. simpl. rewrite filter_true. reflexivity. Qed.

Lemma spread_step (r : loc) (w : World) :
  let '(r', w') := spread r w in elements w' r' = elements w r.
Proof.
  unfold spread, bind, readArray, get, newArray.
  apply elements_insert.
Qed.

(** [filteredProducts] holds the products of the catalog that pass every
    filter that applies, in catalog order. *)
Lemma filterProducts_elements (env : Env) (p : Params.t) (w : World) :
  let '(r, w') := filterProducts env p w in
  elements w' r = List.filter (keeps env p) (catalog w).
Proof.
  unfold filterProducts, keeps, catalog, bind, get.
  pose proof (spread_step (products w) w) as H0.
  destruct (spread (products w) w) as [r0 w0]. rewrite <- H0. clear H0.
  match goal with
  | |- context [let '(_, _) := ?m in _] =>
      assert (H1 : let '(r1, w1) := m in
                   elements w1 r1
                   = List.filter (fun x => match Params.category p with
                                           | Some category =>
                                               if nonEmpty category
                                               then inCategories category x else true
                                           | None => true
                                           end) (elements w0 r0));
      [ destruct (Params.category p) as [c|]; [destruct (nonEmpty c)|];
        first [apply filter_step | apply skip_step]
      | destruct m as [r1 w1] ]
  end.
  match goal with
  | |- context [let '(_, _) := ?m in _] =>
      assert (H2 : let '(r2, w2) := m in
                   elements w2 r2
                   = List.filter (fun x => match Params.minPrice p with
                                           | Some minPrice => atLeast minPrice x
                                           | None => true
                                           end) (elements w1 r1));
      [ destruct (Params.minPrice p); first [apply filter_step | apply skip_step]
      | destruct m as [r2 w2] ]
  end.
  match goal with
  | |- context [let '(_, _) := ?m in _] =>
      assert (H3 : let '(r3, w3) := m in
                   elements w3 r3
                   = List.filter (fun x => match Params.maxPrice p with
                                           | Some maxPrice => atMost maxPrice x
                                           | None => true
                                           end) (elements w2 r2));
      [ destruct (Params.maxPrice p); first [apply filter_step | apply skip_step]
      | destruct m as [r3 w3] ]
  end.
  match goal with
  | |- let '(_, _) := ?m in _ =>
      assert (H4 : let '(r4, w4) := m in
                   elements w4 r4
                   = List.filter (fun x => match Params.search p with
                                           | Some search =>
                                               if nonEmpty search
                                               then matches env search x else true
                                           | None => true
                                           end) (elements w3 r3));
      [ destruct (Params.search p) as [s|]; [destruct (nonEmpty s)|];
        first [apply filter_step | apply skip_step]
      | destruct m as [r4 w4] ]
  end.
  rewrite H4, H3, H2, H1. rewrite !filter_filter.
  apply List.filter_ext. intros x. rewrite ?Bool.andb_assoc. reflexivity.
Qed.

Lemma surviving_keeps (env : Env) (q : Query.t) (w : World) :
  surviving env q w = List.filter (keeps env (convert q)) (catalog w).
Proof.
  unfold surviving. pose proof (filterProducts_elements env (convert q) w) as H.
  destruct (filterProducts env (convert q) w) as [r w']. exact H.
Qed.

Lemma arranged_sorted (env : Env) (q : Query.t) (w : World) :
  arranged env q w
  = sorted (comparator env (Params.sort (convert q)) (Params.order (convert q)))
           (surviving env q w).
Proof.
  unfold arranged, surviving.
  destruct (filterProducts env (convert q) w) as [r w'].
  unfold sortProducts, Array_sort, bind, readArray, get, writeArray, modify.
  apply elements_insert.
Qed.

(** The reply is always a JSON body: the slice of the sorted array and
    the pagination object. *)
Lemma listProducts_answer (env : Env) (q : Query.t) (w : World) :
  fst (listProducts env q w) = Json (answer (convert q) (arranged env q w)).
Proof.
  unfold listProducts, arranged, bind.
  destruct (filterProducts env (convert q) w) as [r w'].
  destruct (sortProducts env (convert q) r w') as [u w''].
  unfold paginate, answer, Array_length, Array_slice, readArray, get, newArray, ret, bind.
  cbn [fst snd]. rewrite elements_insert. reflexivity.
Qed.

Lemma listing_answer (env : Env) (q : Query.t) (w : World) :
  listing env q w = Some (answer (convert q) (arranged env q w)).
Proof. unfold listing. rewrite listProducts_answer. reflexivity. Qed.

Lemma page_slice (env : Env) (q : Query.t) (w : World) :
  page env q w
  = slice (arranged env q w) (Params.offset (convert q))
          (add (Params.offset (convert q)) (Params.limit (convert q))).
Proof. unfold page. rewrite listing_answer. reflexivity. Qed.

(** ** GET /api/products: what the handler writes *)

Lemma local_filterProducts (w0 : World) (env : Env) (p : Params.t) :
  local w0 (filterProducts env p) (fun r => arrays w0 !! r = None).
Proof.
  unfold filterProducts.
  eapply local_bind; [apply local_get|]. intros c _.
  eapply local_bind; [apply local_spread|]. intros r0 H0.
  eapply local_bind.
  { instantiate (1 := fun r => arrays w0 !! r = None).
    destruct (Params.category p) as [s|]; [destruct (nonEmpty s)|];
      first [apply local_filter | apply local_ret; assumption]. }
  intros r1 H1.
  eapply local_bind.
  { instantiate (1 := fun r => arrays w0 !! r = None).
    destruct (Params.minPrice p);
      first [apply local_filter | apply local_ret; assumption]. }
  intros r2 H2.
  eapply local_bind.
  { instantiate (1 := fun r => arrays w0 !! r = None).
    destruct (Params.maxPrice p);
      first [apply local_filter | apply local_ret; assumption]. }
  intros r3 H3.
  destruct (Params.search p) as [s|]; [destruct (nonEmpty s)|];
    first [apply local_filter | apply local_ret; assumption].
Qed.

Lemma local_listProducts (w0 : World) (env : Env) (q : Query.t) :
  local w0 (listProducts env q) (fun _ => True).
Proof.
  unfold listProducts.
  eapply local_bind; [apply local_filterProducts|]. intros r Hr.
  eapply local_bind; [apply local_sort; exact Hr|]. intros _ _.
  unfold paginate.
  eapply local_bind; [apply local_length|]. intros total _.
  eapply local_bind; [apply local_slice|]. intros r' _.
  eapply local_bind; [apply local_readArray|]. intros l _.
  apply local_ret. exact I.
Qed.

(** ** Claims about GET /api/products *)

(** C10. [GET /api/products] does not mutate the catalog: when the
    variable [products] refers to an array with elements [l] before the
    request, it refers to the same array afterwards, and that array still
    has the elements [l], in the same order.  The handler filters and
    sorts arrays of its own. *)
Theorem listProducts_leaves_catalog
        (env : Env) (q : Query.t) (w : World) (l : list Product.t) :
  arrays w !! products w = Some l ->
  let w' := snd (listProducts env q w) in
  products w' = products w
  /\ arrays w' !! products w' = Some l
  /\ catalog w' = catalog w.
Proof.
  intros Hl w'.
  destruct (local_listProducts w env q w (preserves_refl w)) as [(Hp & Harr & _) _].
  fold w' in Hp, Harr.
  assert (H : arrays w' !! products w' = Some l) by (rewrite Hp; auto).
  repeat split; [exact Hp|exact H|].
  unfold catalog, elements. rewrite H, Hl. reflexivity.
Qed.

Lemma listProducts_leaves_catalog_witness :
  arrays (Sample.world [Sample.phone; Sample.lamp]) !! products (Sample.world [Sample.phone; Sample.lamp])
  = Some [Sample.phone; Sample.lamp]
  /\ catalog (snd (listProducts Sample.env
                     (Query.mk None None (Some "price") None None None None None)
                     (Sample.world [Sample.phone; Sample.lamp])))
     = catalog (Sample.world [Sample.phone; Sample.lamp]).
Proof.
  split; [reflexivity|].
  apply (listProducts_leaves_catalog Sample.env
           (Query.mk None None (Some "price") None None None None None)
           (Sample.world [Sample.phone; Sample.lamp]) [Sample.phone; Sample.lamp]).
  reflexivity.
Defined.

(** C6. Filtering is conjunctive: a product survives the four filters of
    a request exactly when it survives each of them applied alone. *)
Theorem filtering_is_conjunctive (env : Env) (q : Query.t) (w : World) (x : Product.t) :
  In x (surviving env q w)
  <-> In x (surviving env (onlyCategory q) w)
      /\ In x (surviving env (onlyMinPrice q) w)
      /\ In x (surviving env (onlyMaxPrice q) w)
      /\ In x (surviving env (onlySearch q) w).
Proof.
  rewrite !surviving_keeps, !filter_In.
  unfold keeps, convert, onlyCategory, onlyMinPrice, onlyMaxPrice, onlySearch.
  cbn [Params.category Params.minPrice Params.maxPrice Params.search
       Query.category Query.minPrice Query.maxPrice Query.search truthy fmap option_fmap option_map].
  rewrite !Bool.andb_true_iff. intuition auto.
Qed.

Lemma insertSorted_length {A : Type} (cmp : A -> A -> number) (x : A) (l : list A) :
  length (insertSorted cmp x l) = S (length l).
Proof.
  induction l as [|y l IH]; simpl; [reflexivity|].
  destruct (gt (cmp x y) (ofZ 0)); simpl; [rewrite IH|]; reflexivity.
Qed.

Lemma sorted_length {A : Type} (cmp : A -> A -> number) (l : list A) :
  length (sorted cmp l) = length l.
Proof.
  induction l as [|x l IH]; simpl; [reflexivity|].
  rewrite insertSorted_length. fold (sorted cmp l). rewrite IH. reflexivity.
Qed.

Lemma arranged_length (env : Env) (q : Query.t) (w : World) :
  length (arranged env q w) = length (surviving env q w).
Proof. rewrite arranged_sorted. apply sorted_length. Qed.

Lemma slice_nil {A : Type} (a b : number) : slice (@nil A) a b = [].
Proof. unfold slice. rewrite drop_nil, take_nil. reflexivity. Qed.

Lemma filter_none {A : Type} (f : A -> bool) (l : list A) :
  (forall x, f x = false) -> List.filter f l = [].
Proof.
  intros Hf. induction l as [|x l IH]; simpl; [reflexivity|].
  rewrite Hf. exact IH.
Qed.

Lemma parseFloat_empty : parseFloat "" = NaN.
Proof. reflexivity. Qed.

(** C1, as the code has it.  A non-empty [minPrice] or [maxPrice] that
    [parseFloat] cannot read becomes [NaN], and the price filter is still
    applied: every comparison with [NaN] is false, so that no product
    survives and the reply is an empty page with [total] 0.  No error is
    raised.  An empty [minPrice] or [maxPrice] is the same as an absent
    one. *)
Theorem malformed_price_keeps_nothing
        (env : Env) (q : Query.t) (w : World) (s : string) :
  nonEmpty s = true ->
  parseFloat s = NaN ->
  Query.minPrice q = Some s \/ Query.maxPrice q = Some s ->
  surviving env q w = []
  /\ page env q w = []
  /\ total env q w = Some 0
  /\ (exists body, fst (listProducts env q w) = Json body)
  /\ listProducts env (setMinPrice (Some "") q) w = listProducts env (setMinPrice None q) w
  /\ listProducts env (setMaxPrice (Some "") q) w = listProducts env (setMaxPrice None q) w.
Proof.
  intros Hs Hnan Hq.
  assert (Hnone : surviving env q w = []).
  { rewrite surviving_keeps. apply filter_none. intros x.
    unfold keeps, convert. cbn [Params.category Params.minPrice Params.maxPrice Params.search].
    destruct Hq as [Hq|Hq]; rewrite Hq; cbn [truthy fmap option_fmap option_map];
      rewrite Hs, Hnan; unfold atLeast, atMost, le, ge;
      rewrite ?Bool.andb_false_r; reflexivity. }
  assert (Harr : arranged env q w = []).
  { rewrite arranged_sorted, Hnone. reflexivity. }
  split; [exact Hnone|].
  split; [rewrite page_slice, Harr; apply slice_nil|].
  split; [unfold total; rewrite listing_answer, Harr; reflexivity|].
  split; [eexists; apply listProducts_answer|].
  split; reflexivity.
Qed.

Lemma malformed_price_keeps_nothing_witness :
  nonEmpty "abc" = true
  /\ parseFloat "abc" = NaN
  /\ page Sample.env (setMinPrice (Some "abc") Sample.query) (Sample.world [Sample.lamp]) = [].
Proof.
  split; [reflexivity|]. split; [reflexivity|].
  apply (malformed_price_keeps_nothing Sample.env
           (setMinPrice (Some "abc") Sample.query) (Sample.world [Sample.lamp]) "abc");
    [reflexivity|reflexivity|left; reflexivity].
Defined.

(** C1 fails as stated: with [minPrice=abc] the reply has no product,
    with [minPrice] omitted it has the whole catalog. *)
Lemma malformed_price_counterexample :
  nonEmpty "abc" = true
  /\ parseFloat "abc" = NaN
  /\ page Sample.env (setMinPrice (Some "abc") Sample.query) (Sample.world [Sample.lamp]) = []
  /\ page Sample.env (setMinPrice None Sample.query) (Sample.world [Sample.lamp]) = [Sample.lamp]
  /\ fst (listProducts Sample.env (setMinPrice (Some "abc") Sample.query) (Sample.world [Sample.lamp]))
     <> fst (listProducts Sample.env (setMinPrice None Sample.query) (Sample.world [Sample.lamp])).
Proof.
  split; [reflexivity|]. split; [reflexivity|].
  split; [vm_compute; reflexivity|]. split; [vm_compute; reflexivity|].
  vm_compute. discriminate.
Qed.

Lemma Qeq_bool_inject_Z (a b : Z) : Qeq_bool (inject_Z a) (inject_Z b) = (a =? b).
Proof.
  unfold Qeq_bool, inject_Z. simpl. rewrite !Z.mul_1_r. reflexivity.
Qed.

(** [Math.ceil(t / L)] on integers, by floor division. *)
Lemma ceil_div_ofZ (t L : Z) :
  L <> 0 -> ceil (div (ofZ t) (ofZ L)) = ofZ (- ((- t) / L)).
Proof.
  intros HL. unfold div, ofZ.
  change 0%Q with (inject_Z 0). rewrite Qeq_bool_inject_Z.
  destruct (Z.eqb_spec L 0) as [|_]; [contradiction|].
  unfold ceil, ofZ. do 2 f_equal.
  rewrite (Qceiling_comp _ _ (Qred_correct _)).
  unfold Qceiling. f_equal.
  rewrite Zdiv_Qdiv. apply Qfloor_comp.
  rewrite inject_Z_opp. unfold Qdiv. ring.
Qed.

Lemma floor_div_isCeiling (t L : Z) : L <> 0 -> isCeiling (- ((- t) / L)) t L.
Proof.
  intros HL. unfold isCeiling.
  pose proof (Z.div_mod (- t) L HL) as Hdm.
  destruct (Z.lt_total L 0) as [Hneg|[H0|Hpos]]; [right|contradiction|left].
  - pose proof (Z.mod_neg_bound (- t) L Hneg). split; [assumption|]. nia.
  - pose proof (Z.mod_pos_bound (- t) L Hpos). split; [assumption|]. nia.
Qed.

(** C3, as the code has it.  [total] is the number of products that
    survive the filters.  For a limit that [parseInt] reads as a safe
    integer other than 0, [totalPages] is the ceiling of [total / limit]
    (which is not positive for a negative limit).  For the limit 0 the
    division is not guarded: [totalPages] is [Infinity] or [NaN], which
    the reply prints as [null]; it is not 0.  (Beyond the safe integers
    [parseInt] rounds the limit, up to [Infinity], and the statement is
    silent.) *)
Theorem totalPages_is_ceiling (env : Env) (q : Query.t) (w : World) (L : Z) :
  Params.limit (convert q) = ofZ L ->
  isSafeInteger L ->
  total env q w = Some (Z.of_nat (length (surviving env q w)))
  /\ (L = 0 -> totalPages env q w = None)
  /\ (L <> 0 ->
      exists k, totalPages env q w = Some (inject_Z k)
                /\ isCeiling k (Z.of_nat (length (surviving env q w))) L).
Proof.
  intros HL _. unfold total, totalPages. rewrite listing_answer.
  unfold answer. cbn [fmap option_fmap option_map Listing.pagination
                      Pagination.total Pagination.totalPages].
  rewrite arranged_length, HL.
  split; [reflexivity|]. split.
  - intros ->. unfold div, ofZ. change 0%Q with (inject_Z 0).
    rewrite Qeq_bool_inject_Z. simpl.
    destruct (length (surviving env q w)); reflexivity.
  - intros Hne. exists (- ((- Z.of_nat (length (surviving env q w))) / L)).
    rewrite ceil_div_ofZ by assumption.
    split; [reflexivity|]. apply floor_div_isCeiling. assumption.
Qed.

Lemma totalPages_is_ceiling_witness :
  Params.limit (convert (setLimit (Some "2") Sample.query)) = ofZ 2
  /\ isSafeInteger 2
  /\ total Sample.env (setLimit (Some "2") Sample.query)
       (Sample.world [Sample.phone; Sample.lamp; Sample.novel])
     = Some (Z.of_nat (length (surviving Sample.env (setLimit (Some "2") Sample.query)
                                 (Sample.world [Sample.phone; Sample.lamp; Sample.novel])))).
Proof.
  split; [reflexivity|]. split; [vm_compute; discriminate|].
  apply (totalPages_is_ceiling Sample.env (setLimit (Some "2") Sample.query)
           (Sample.world [Sample.phone; Sample.lamp; Sample.novel]) 2);
    [reflexivity|vm_compute; discriminate].
Defined.

(** C3 fails as stated: with [limit=0] and one product in the catalog,
    [totalPages] is not 0; the reply prints [null]. *)
Lemma totalPages_zero_limit_counterexample :
  Params.limit (convert (setLimit (Some "0") Sample.query)) = ofZ 0
  /\ total Sample.env (setLimit (Some "0") Sample.query) (Sample.world [Sample.lamp]) = Some 1
  /\ totalPages Sample.env (setLimit (Some "0") Sample.query) (Sample.world [Sample.lamp]) = None
  /\ totalPages Sample.env (setLimit (Some "0") Sample.query) (Sample.world [Sample.lamp])
     <> Some (inject_Z 0).
Proof.
  split; [reflexivity|]. split; [vm_compute; reflexivity|].
  split; [vm_compute; reflexivity|]. vm_compute. discriminate.
Qed.

(** ** Slices *)

Lemma relativeIndex_range (len : Z) (i : integer_or_infinity) :
  0 <= len -> 0 <= relativeIndex len i <= len.
Proof.
  intros Hlen. destruct i as [| |z]; simpl; [lia|lia|].
  destruct (Z.ltb_spec z 0); lia.
Qed.

Lemma add_NaN_r (a : number) : add a NaN = NaN.
Proof. destruct a; reflexivity. Qed.

(** A slice whose end is [NaN] is empty. *)
Lemma slice_end_NaN {A : Type} (l : list A) (a : number) : slice l a NaN = [].
Proof.
  unfold slice.
  pose proof (relativeIndex_range (Z.of_nat (length l)) (ToIntegerOrInfinity a)
                                  (Nat2Z.is_nonneg _)) as Hk.
  replace (relativeIndex (Z.of_nat (length l)) (ToIntegerOrInfinity NaN)) with 0
    by (simpl; lia).
  replace (Z.max (0 - _) 0) with 0 by lia. reflexivity.
Qed.

(** A slice that starts at or after the end of the array is empty. *)
Lemma slice_beyond {A : Type} (l : list A) (o : Z) (b : number) :
  Z.of_nat (length l) <= o -> slice l (ofZ o) b = [].
Proof.
  intros Ho. unfold slice. rewrite ToIntegerOrInfinity_ofZ. simpl.
  destruct (Z.ltb_spec o 0); [lia|].
  rewrite Z.min_r by assumption. rewrite Nat2Z.id, drop_all, take_nil. reflexivity.
Qed.

(** A slice from a non-negative start with a non-negative length is the
    window of the array the two denote. *)
Lemma slice_window {A : Type} (l : list A) (a b : Z) :
  0 <= a -> 0 <= b ->
  slice l (ofZ a) (ofZ (a + b)) = take (Z.to_nat b) (drop (Z.to_nat a) l).
Proof.
  intros Ha Hb. unfold slice. rewrite !ToIntegerOrInfinity_ofZ. simpl.
  destruct (Z.ltb_spec a 0); [lia|]. destruct (Z.ltb_spec (a + b) 0); [lia|].
  set (len := Z.of_nat (length l)).
  destruct (Z.le_gt_cases len a) as [Hge|Hlt].
  - rewrite (Z.min_r a len) by assumption.
    unfold len. rewrite Nat2Z.id, drop_all, take_nil.
    rewrite (drop_ge l (Z.to_nat a)) by lia. rewrite take_nil. reflexivity.
  - rewrite (Z.min_l a len) by lia.
    destruct (Z.le_gt_cases (a + b) len) as [Hin|Hout].
    + rewrite (Z.min_l (a + b) len) by assumption. do 2 f_equal. lia.
    + rewrite (Z.min_r (a + b) len) by lia.
      rewrite Z.max_l by lia.
      rewrite !take_ge; [reflexivity| |]; rewrite length_drop; unfold len; lia.
Qed.

Lemma windows_concat {A : Type} (l : list A) (m n : nat) :
  concat (map (fun k => take m (drop (k * m) l)) (seq 0 n)) = take (n * m) l.
Proof.
  induction n as [|n IH]; [reflexivity|].
  rewrite seq_S, map_app, concat_app, IH. simpl.
  rewrite app_nil_r, take_take_drop. f_equal. lia.
Qed.

(** C4, as the code has it.  A missing [limit] is the default 10 and a
    missing [offset] is the default 0.  A [limit] or [offset] that is
    present but that [parseInt] cannot read is not replaced by the
    default: it becomes [NaN], the slice is empty, and the reply prints
    the parameter as [null].  No error is raised. *)
Theorem pagination_defaults
        (env : Env) (q : Query.t) (w : World) (s : string) :
  parseInt (Str s) = NaN ->
  listProducts env (setLimit None q) w = listProducts env (setLimit (Some "10") q) w
  /\ listProducts env (setOffset None q) w = listProducts env (setOffset (Some "0") q) w
  /\ page env (setLimit (Some s) q) w = []
  /\ page env (setOffset (Some s) q) w = []
  /\ (exists body, fst (listProducts env (setLimit (Some s) q) w) = Json body
                   /\ Pagination.limit (Listing.pagination body) = None)
  /\ (exists body, fst (listProducts env (setOffset (Some s) q) w) = Json body
                   /\ Pagination.offset (Listing.pagination body) = None).
Proof.
  intros Hs.
  split; [reflexivity|]. split; [reflexivity|].
  split; [|split; [|split]].
  - rewrite page_slice. unfold convert, setLimit.
    cbn [Params.limit Params.offset Query.limit Query.offset fmap option_fmap option_map default from_option id].
    rewrite Hs, add_NaN_r. apply slice_end_NaN.
  - rewrite page_slice. unfold convert, setOffset.
    cbn [Params.limit Params.offset Query.limit Query.offset fmap option_fmap option_map default from_option id].
    rewrite Hs. apply slice_end_NaN.
  - eexists. split; [apply listProducts_answer|].
    unfold answer, convert, setLimit.
    cbn [Listing.pagination Pagination.limit Params.limit Query.limit
         fmap option_fmap option_map default from_option id].
    rewrite Hs. reflexivity.
  - eexists. split; [apply listProducts_answer|].
    unfold answer, convert, setOffset.
    cbn [Listing.pagination Pagination.offset Params.offset Query.offset
         fmap option_fmap option_map default from_option id].
    rewrite Hs. reflexivity.
Qed.

Lemma pagination_defaults_witness :
  parseInt (Str "abc") = NaN
  /\ page Sample.env (setLimit (Some "abc") Sample.query) (Sample.world [Sample.lamp]) = [].
Proof.
  split; [reflexivity|].
  apply (pagination_defaults Sample.env Sample.query (Sample.world [Sample.lamp]) "abc").
  reflexivity.
Defined.

(** C4 fails as stated: with [limit=abc] the page is empty, with
    [limit=10] it has the product of the catalog. *)
Lemma invalid_limit_counterexample :
  parseInt (Str "abc") = NaN
  /\ page Sample.env (setLimit (Some "abc") Sample.query) (Sample.world [Sample.lamp]) = []
  /\ page Sample.env (setLimit (Some "10") Sample.query) (Sample.world [Sample.lamp]) = [Sample.lamp]
  /\ fst (listProducts Sample.env (setLimit (Some "abc") Sample.query) (Sample.world [Sample.lamp]))
     <> fst (listProducts Sample.env (setLimit (Some "10") Sample.query) (Sample.world [Sample.lamp])).
Proof.
  split; [reflexivity|]. split; [vm_compute; reflexivity|].
  split; [vm_compute; reflexivity|]. vm_compute. discriminate.
Qed.

(** C5, as the code has it.  When [offset] is an integer at or beyond
    the length of the filtered and sorted array, the page is empty and no
    error is raised, whatever the limit is.  (A negative offset is not
    clamped: [slice] counts it from the end of the array.) *)
Theorem offset_beyond_end (env : Env) (q : Query.t) (w : World) (o : Z) :
  Params.offset (convert q) = ofZ o ->
  Z.of_nat (length (arranged env q w)) <= o ->
  page env q w = []
  /\ exists pagination, fst (listProducts env q w) = Json (Listing.mk [] pagination).
Proof.
  intros Ho Hlen.
  assert (Hp : page env q w = []).
  { rewrite page_slice, Ho. apply slice_beyond. assumption. }
  split; [exact Hp|].
  rewrite page_slice in Hp. rewrite listProducts_answer. unfold answer.
  rewrite Hp. eexists. reflexivity.
Qed.

Lemma offset_beyond_end_witness :
  Params.offset (convert (setOffset (Some "2") Sample.query)) = ofZ 2
  /\ Z.of_nat (length (arranged Sample.env (setOffset (Some "2") Sample.query)
                         (Sample.world [Sample.lamp; Sample.novel]))) <= 2
  /\ page Sample.env (setOffset (Some "2") Sample.query)
       (Sample.world [Sample.lamp; Sample.novel]) = [].
Proof.
  split; [reflexivity|].
  split; [vm_compute; discriminate|].
  apply (offset_beyond_end Sample.env (setOffset (Some "2") Sample.query)
           (Sample.world [Sample.lamp; Sample.novel]) 2);
    [reflexivity|vm_compute; discriminate].
Defined.

(** C5 fails as stated: the offset -1 is outside the bounds of an array
    of two products, and the page is its last product. *)
Lemma negative_offset_counterexample :
  Params.offset (convert (setOffset (Some "-1") Sample.query)) = ofZ (-1)
  /\ arranged Sample.env (setOffset (Some "-1") Sample.query)
       (Sample.world [Sample.lamp; Sample.novel]) = [Sample.lamp; Sample.novel]
  /\ page Sample.env (setOffset (Some "-1") Sample.query)
       (Sample.world [Sample.lamp; Sample.novel]) = [Sample.novel]
  /\ page Sample.env (setOffset (Some "-1") Sample.query)
       (Sample.world [Sample.lamp; Sample.novel]) <> [].
Proof.
  split; [reflexivity|]. split; [vm_compute; reflexivity|].
  split; [vm_compute; reflexivity|]. vm_compute. discriminate.
Qed.

(** The filtered and sorted array does not depend on [limit] and
    [offset]. *)
Lemma arranged_setLimit_setOffset
      (env : Env) (q : Query.t) (w : World) (lim off : option string) :
  arranged env (setLimit lim (setOffset off q)) w = arranged env q w.
Proof. rewrite !arranged_sorted, !surviving_keeps. reflexivity. Qed.

Lemma page_window (env : Env) (q : Query.t) (w : World) (lim off : string) (L o : Z) :
  0 <= L -> 0 <= o ->
  parseInt (Str lim) = ofZ L -> parseInt (Str off) = ofZ o ->
  page env (setLimit (Some lim) (setOffset (Some off) q)) w
  = take (Z.to_nat L) (drop (Z.to_nat o) (arranged env q w)).
Proof.
  intros HL Ho Hlim Hoff.
  rewrite page_slice, arranged_setLimit_setOffset.
  unfold convert, setLimit, setOffset.
  cbn [Params.limit Params.offset Query.limit Query.offset
       fmap option_fmap option_map default from_option id].
  rewrite Hlim, Hoff, add_ofZ. apply slice_window; assumption.
Qed.

(** The pages of a client that sends any strings [parseInt] reads as the
    limit [L] and as the offsets 0, [L], ..., [(n - 1) * L]. *)
Lemma pages_concat
      (env : Env) (q : Query.t) (w : World)
      (L : Z) (n : nat) (lim : string) (off : nat -> string) :
  1 <= L ->
  parseInt (Str lim) = ofZ L ->
  (forall k, (k < n)%nat -> parseInt (Str (off k)) = ofZ (Z.of_nat k * L)) ->
  Z.of_nat (length (arranged env q w)) <= Z.of_nat n * L ->
  concat (map (fun k => page env (setLimit (Some lim) (setOffset (Some (off k)) q)) w)
              (seq 0 n))
  = arranged env q w.
Proof.
  intros HL Hlim Hoff Hlen.
  rewrite (map_ext_in _ (fun k => take (Z.to_nat L)
                                    (drop (k * Z.to_nat L) (arranged env q w)))).
  - rewrite windows_concat. apply take_ge. nia.
  - intros k Hk. apply in_seq in Hk.
    rewrite (page_window env q w lim (off k) L (Z.of_nat k * L));
      [|lia|nia|assumption|apply Hoff; lia].
    do 2 f_equal. rewrite Z2Nat.inj_mul, Nat2Z.id by lia. reflexivity.
Qed.

(** C7. For every catalog, every choice of filter and sort parameters
    and every limit [L] of at least 1, the pages requested with
    [limit=L] at the offsets 0, [L], [2 * L], ..., [(n - 1) * L], taken
    in this order, make up the filtered and sorted array, each element
    once, as soon as [n * L] reaches its length.  The parameters are sent
    as decimal numerals. *)
Theorem pages_reconstruct
        (env : Env) (q : Query.t) (w : World) (L : Z) (n : nat) :
  1 <= L ->
  Z.of_nat (length (arranged env q w)) <= Z.of_nat n * L ->
  concat (map (fun k => page env
                          (setLimit (Some (ToString (Literal L)))
                             (setOffset (Some (ToString (Literal (Z.of_nat k * L)))) q))
                          w)
              (seq 0 n))
  = arranged env q w.
Proof.
  intros HL Hlen.
  apply (pages_concat env q w L n (ToString (Literal L))
           (fun k => ToString (Literal (Z.of_nat k * L)))).
  - exact HL.
  - apply parseInt_numeral. lia.
  - intros k _. apply parseInt_numeral. nia.
  - exact Hlen.
Qed.

Lemma pages_reconstruct_witness :
  1 <= 2
  /\ Z.of_nat (length (arranged Sample.env (setMinPrice (Some "10") Sample.query)
                         (Sample.world [Sample.phone; Sample.lamp; Sample.novel])))
     <= Z.of_nat 2 * 2
  /\ concat (map (fun k => page Sample.env
                             (setLimit (Some (ToString (Literal 2)))
                                (setOffset (Some (ToString (Literal (Z.of_nat k * 2))))
                                   (setMinPrice (Some "10") Sample.query)))
                             (Sample.world [Sample.phone; Sample.lamp; Sample.novel]))
                 (seq 0 2))
     = arranged Sample.env (setMinPrice (Some "10") Sample.query)
         (Sample.world [Sample.phone; Sample.lamp; Sample.novel]).
Proof.
  split; [lia|].
  split; [vm_compute; discriminate|].
  apply (pages_reconstruct Sample.env (setMinPrice (Some "10") Sample.query)
           (Sample.world [Sample.phone; Sample.lamp; Sample.novel]) 2 2);
    [lia|vm_compute; discriminate].
Defined.

(** ** Claims about API keys *)

Lemma sameString_spec (a b : string) : reflect (a = b) (sameString a b).
Proof. apply bool_decide_reflect. Qed.

Lemma sameString_refl (a : string) : sameString a a = true.
Proof. apply bool_decide_eq_true_2. reflexivity. Qed.

Lemma eqb_neq_false (a b : string) : a <> b -> sameString a b = false.
Proof. apply bool_decide_eq_false_2. Qed.

(** C2, as the code has it.  For a token that the key store holds, with
    an expiry instant [e], the middleware lets the request through
    exactly when [now <= e], and then the store is unchanged; when
    [e < now] it answers 401 "API key has expired", deletes the record
    (the other records stay) and saves the store, so that the token is
    absent from then on.  The instant [e] itself is still valid: the test
    is [Date.now() > expiresAt]. *)
Theorem validateApiKey_lifecycle
        (env : Env) (path token : string) (w : World) (e : Z) (created : number) :
  path <> "/api/auth/generate-key" ->
  token <> "" ->
  apiKeys w !! token = Some (mkKeyData (ofZ e) created) ->
  let now := clock w 0%nat in
  let verdict := fst (validateApiKey env path (Some token) w) in
  let w' := snd (validateApiKey env path (Some token) w) in
  (now <= e -> verdict = Next /\ apiKeys w' = apiKeys w)
  /\ (e < now ->
      verdict = Rejected 401 "API key has expired"
      /\ apiKeys w' = delete token (apiKeys w)
      /\ apiKeys w' !! token = None
      /\ (isVercel env = false -> apiKeysFile w' = Some (delete token (apiKeys w)))).
Proof.
  intros Hpath Htoken Hkey now verdict w'.
  subst verdict w'. unfold validateApiKey.
  rewrite (eqb_neq_false _ _ Hpath).
  unfold truthy, nonEmpty. rewrite (eqb_neq_false _ _ Htoken).
  cbn [negb default from_option id].
  unfold bind, get, lookupKey. rewrite Hkey.
  unfold Date_now. cbn [expiresAt]. rewrite gt_ofZ. fold now.
  split.
  - intros Hle. destruct (Z.ltb_spec e now); [lia|]. split; reflexivity.
  - intros Hlt. destruct (Z.ltb_spec e now); [|lia].
    unfold modify, saveApiKeysToFile.
    destruct (isVercel env); cbn.
    + repeat split; [apply lookup_delete_eq|discriminate].
    + repeat split. apply lookup_delete_eq.
Qed.

Lemma validateApiKey_lifecycle_witness :
  "/api/products" <> "/api/auth/generate-key"
  /\ "k1" <> ""
  /\ apiKeys (Sample.world []) !! "k1" = Some (mkKeyData (ofZ 1000) (ofZ 0))
  /\ (clock (Sample.world []) 0%nat <= 1000 ->
      fst (validateApiKey Sample.env "/api/products" (Some "k1") (Sample.world [])) = Next
      /\ apiKeys (snd (validateApiKey Sample.env "/api/products" (Some "k1") (Sample.world [])))
         = apiKeys (Sample.world [])).
Proof.
  split; [discriminate|]. split; [discriminate|]. split; [reflexivity|].
  apply (validateApiKey_lifecycle Sample.env "/api/products" "k1" (Sample.world [])
           1000 (ofZ 0));
    [discriminate|discriminate|reflexivity].
Defined.

(** C2 fails as stated: at the instant [now = expiresAt] the key is not
    expired and its record is not deleted. *)
Lemma key_at_expiry_counterexample :
  apiKeys (Sample.world []) !! "k1" = Some (mkKeyData (ofZ 1000) (ofZ 0))
  /\ clock (Sample.world []) 0%nat = 1000
  /\ fst (validateApiKey Sample.env "/api/products" (Some "k1") (Sample.world [])) = Next
  /\ apiKeys (snd (validateApiKey Sample.env "/api/products" (Some "k1") (Sample.world [])))
       !! "k1" = Some (mkKeyData (ofZ 1000) (ofZ 0))
  /\ fst (validateApiKey Sample.env "/api/products" (Some "k1") (Sample.world []))
     <> Rejected 401 "API key has expired".
Proof.
  split; [reflexivity|]. split; [reflexivity|].
  split; [vm_compute; reflexivity|]. split; [vm_compute; reflexivity|].
  vm_compute. discriminate.
Qed.

Lemma durationMap_multiplier (unit : codeUnit) :
  isUnit unit -> durationMap unit = ofZ (multiplier unit).
Proof. intros [-> | [-> | ->]]; reflexivity. Qed.

Lemma matchDuration_grammar (digits : string) (unit : codeUnit) :
  Forall (fun c => isDigit c = true) digits -> digits <> [] -> isUnit unit ->
  matchDuration (digits ++ [unit]) = Some (digits, unit).
Proof.
  intros Hd Hne Hu. unfold matchDuration.
  destruct (takeWhile_digits digits [unit] Hd (unit_not_digit unit Hu)) as [H1 H2].
  rewrite H1, H2.
  destruct digits as [|c l]; [contradiction|].
  destruct Hu as [-> | [-> | ->]]; reflexivity.
Qed.

(** C8, as the code has it.  For an [expiresIn] made of one or more
    decimal digits and one unit among [h], [d] and [w], whose duration
    [amount * multiplier] and whose expiry instant are safe integers, the
    record stored under the new token has [expiresAt] equal to the first
    reading of the clock plus [amount * multiplier], and [createdAt]
    equal to a second, later reading of the clock.  Hence
    [expiresAt - createdAt] is [amount * multiplier] minus the time
    between the two readings: it is exactly the duration when the two
    readings agree.  (Beyond the safe integers the product and the sum
    are rounded, and the statement is silent.) *)
Theorem issued_key_lifetime
        (env : Env) (w : World) (digits : string) (unit : codeUnit)
        (masterKey : option string) :
  masterKey = MASTER_KEY env ->
  Forall (fun c => isDigit c = true) digits ->
  digits <> [] ->
  isUnit unit ->
  let duration := amountOf digits * multiplier unit in
  let t1 := clock w 0%nat in
  let t2 := clock w 1%nat in
  isSafeInteger duration ->
  isSafeInteger (t1 + duration) ->
  let w' := snd (generateKey env (Some (digits ++ [unit]))
                   masterKey w) in
  apiKeys w' !! uuids w 0%nat = Some (mkKeyData (ofZ (t1 + duration)) (ofZ t2))
  /\ (lifetime <$> apiKeys w' !! uuids w 0%nat) = Some (ofZ (duration - (t2 - t1)))
  /\ (t2 = t1 -> (lifetime <$> apiKeys w' !! uuids w 0%nat) = Some (ofZ duration)).
Proof.
  intros Hmaster Hd Hne Hu duration t1 t2 _ _ w'.
  assert (Hkey : apiKeys w' !! uuids w 0%nat
                 = Some (mkKeyData (ofZ (t1 + duration)) (ofZ t2))).
  { subst w'. unfold generateKey. cbn [default from_option id].
    unfold wrongMasterKey. rewrite (bool_decide_eq_true_2 _ Hmaster). cbn [negb].
    rewrite (matchDuration_grammar digits unit Hd Hne Hu).
    rewrite (parseInt_digits digits Hd Hne), (durationMap_multiplier unit Hu).
    rewrite mul_ofZ.
    unfold bind, Date_now, uuidv4, modify, saveApiKeysToFile.
    cbn [clock uuids set_clock set_uuids next].
    rewrite add_ofZ.
    destruct (isVercel env);
      destruct (toISOString (ofZ (clock w 0%nat + amountOf digits * multiplier unit)));
      cbn; apply lookup_insert_eq. }
  rewrite Hkey. cbn [fmap option_fmap option_map]. unfold lifetime. cbn [expiresAt createdAt].
  rewrite sub_ofZ.
  split; [reflexivity|]. split.
  - do 2 f_equal. lia.
  - intros Heq. do 2 f_equal. lia.
Qed.

Lemma issued_key_lifetime_witness :
  Some "secret" = MASTER_KEY Sample.env
  /\ Forall (fun c => isDigit c = true) "24"
  /\ "24" <> []
  /\ isUnit "h"%unit
  /\ isSafeInteger (amountOf "24" * multiplier "h"%unit)
  /\ isSafeInteger (clock (Sample.world []) 0%nat + amountOf "24" * multiplier "h"%unit)
  /\ apiKeys (snd (generateKey Sample.env (Some "24h") (Some "secret") (Sample.world [])))
       !! "uuid-0"
     = Some (mkKeyData (ofZ (1000 + 24 * 3600000)) (ofZ 1001)).
Proof.
  split; [reflexivity|].
  split; [repeat constructor|].
  split; [discriminate|].
  split; [left; reflexivity|].
  split; [vm_compute; discriminate|].
  split; [vm_compute; discriminate|].
  apply (issued_key_lifetime Sample.env (Sample.world []) "24" "h"%unit (Some "secret"));
    [reflexivity|repeat constructor|discriminate|left; reflexivity
    |vm_compute; discriminate|vm_compute; discriminate].
Defined.

(** C8 fails as stated: the clock reads 1000 when [expiresAt] is
    computed and 1001 when [createdAt] is taken, so that the key issued
    for ["1h"] has [expiresAt - createdAt = 3599999]. *)
Lemma issued_lifetime_counterexample :
  fst (generateKey Sample.env (Some "1h") (Some "secret") (Sample.world []))
  = Json (Issued.mk "uuid-0" 3601000)
  /\ apiKeys (snd (generateKey Sample.env (Some "1h") (Some "secret") (Sample.world [])))
       !! "uuid-0"
     = Some (mkKeyData (ofZ 3601000) (ofZ 1001))
  /\ (lifetime <$> apiKeys (snd (generateKey Sample.env (Some "1h") (Some "secret")
                                   (Sample.world []))) !! "uuid-0")
     <> Some (ofZ (1 * 3600000)).
Proof.
  split; [vm_compute; reflexivity|]. split; [vm_compute; reflexivity|].
  vm_compute. discriminate.
Qed.

(** ** Claims about catalog regeneration *)

Lemma generateFrom_ids (n : nat) (index : Z) (w : World) :
  map Product.id (fst (generateFrom n index w))
  = map (fun k => index + Z.of_nat k) (seq 1 n).
Proof.
  revert index w. induction n as [|n IH]; intros index w; [reflexivity|].
  cbn [generateFrom]. unfold bind, generateProduct.
  specialize (IH (index + 1) (set_faker (next (faker w)) w)).
  destruct (generateFrom n (index + 1) (set_faker (next (faker w)) w)) as [rest w'].
  cbn [fst ret map Product.id seq] in *. rewrite IH.
  f_equal. rewrite <- (seq_shift n 1), map_map.
  apply map_ext. intros k. lia.
Qed.

Lemma generateFrom_arrays (n : nat) (index : Z) (w : World) :
  arrays (snd (generateFrom n index w)) = arrays w
  /\ products (snd (generateFrom n index w)) = products w.
Proof.
  revert index w. induction n as [|n IH]; intros index w; [split; reflexivity|].
  cbn [generateFrom]. unfold bind, generateProduct.
  specialize (IH (index + 1) (set_faker (next (faker w)) w)).
  destruct (generateFrom n (index + 1) (set_faker (next (faker w)) w)) as [rest w'].
  exact IH.
Qed.

(** [parseInt] returns [NaN] or an integer. *)
Lemma parseInt_cases (v : value) : parseInt v = NaN \/ exists z, parseInt v = ofZ z.
Proof.
  unfold parseInt, parseIntString.
  destruct (stripSign (trimStart (ToString v))) as [negative l].
  match goal with
  | |- context [let '(_, _) := ?m in _] => destruct m as [R l']
  end.
  destruct (spanDigits R l') as [ds rest].
  destruct ds; [left; reflexivity|right; eexists; reflexivity].
Qed.

Lemma strict_eq_ofZ (a b : Z) : strict_eq (ofZ a) (ofZ b) = (a =? b).
Proof. unfold strict_eq, ofZ. apply Qeq_bool_inject_Z. Qed.

Lemma find_no_id (l : list Product.t) (v : value) :
  (forall i, In i (map Product.id l) -> parseInt v <> ofZ i) ->
  List.find (fun p => strict_eq (ofZ (Product.id p)) (parseInt v)) l = None.
Proof.
  intros Hid. induction l as [|p l IH]; [reflexivity|].
  cbn [List.find].
  destruct (strict_eq (ofZ (Product.id p)) (parseInt v)) eqn:E.
  - exfalso. apply (Hid (Product.id p)); [left; reflexivity|].
    destruct (parseInt_cases v) as [Hn|[z Hz]].
    + rewrite Hn in E. discriminate E.
    + rewrite Hz in E |- *. rewrite strict_eq_ofZ in E.
      apply Z.eqb_eq in E. rewrite E. reflexivity.
  - apply IH. intros i Hi. apply Hid. right. exact Hi.
Qed.

Lemma ToLength_count (N : nat) :
  ToLength (Fin (inject_Z (Z.of_nat N))) = Z.min (Z.of_nat N) (2 ^ 53 - 1).
Proof.
  unfold ToLength. fold (ofZ (Z.of_nat N)). rewrite ToIntegerOrInfinity_ofZ.
  rewrite Z.max_l by lia. reflexivity.
Qed.

(** What a successful regeneration leaves: the catalog is the array of
    freshly generated products, and the reply counts them. *)
Lemma regenerateProducts_catalog
      (env : Env) (N : nat) (masterKey : option string) (w w' : World)
      (body : Regenerated.t) :
  regenerateProducts env (Some (inject_Z (Z.of_nat N))) masterKey w = (Json body, w') ->
  catalog w' = fst (generateFrom N 0 w)
  /\ Regenerated.count body = Z.of_nat (length (catalog w')).
Proof.
  unfold regenerateProducts. cbn [fmap option_fmap option_map default from_option id].
  destruct (wrongMasterKey env masterKey); [discriminate|].
  unfold generateMockProducts. rewrite ToLength_count.
  destruct (Z.ltb_spec (2 ^ 32 - 1) (Z.min (Z.of_nat N) (2 ^ 53 - 1))) as [Hbig|Hsmall].
  { unfold bind, ret. discriminate. }
  rewrite Z.min_l by lia. rewrite Nat2Z.id.
  unfold bind at 1. unfold bind at 1.
  pose proof (generateFrom_arrays N 0 w) as [Harr Hprod].
  destruct (generateFrom N 0 w) as [l w1]. cbn [fst snd] in *.
  unfold newArray, bind, ret, modify, saveProductsToFile, Array_length, readArray, get, bind.
  destruct (isVercel env); cbn; intros H; inversion H; subst; clear H;
    unfold catalog; cbn; (split; [|reflexivity]);
    unfold elements;
    cbn [arrays set_inMemoryProducts set_products set_productsFile set_arrays];
    rewrite lookup_insert_eq; reflexivity.
Qed.

(** With the master key and a count within the largest array length, the
    regeneration succeeds. *)
Lemma regenerateProducts_succeeds
      (env : Env) (N : nat) (masterKey : option string) (w : World) :
  masterKey = MASTER_KEY env ->
  Z.of_nat N <= 2 ^ 32 - 1 ->
  exists body, fst (regenerateProducts env (Some (inject_Z (Z.of_nat N))) masterKey w)
               = Json body.
Proof.
  intros Hmaster HN.
  unfold regenerateProducts. cbn [fmap option_fmap option_map default from_option id].
  unfold wrongMasterKey. rewrite (bool_decide_eq_true_2 _ Hmaster). cbn [negb].
  unfold generateMockProducts. rewrite ToLength_count.
  destruct (Z.ltb_spec (2 ^ 32 - 1) (Z.min (Z.of_nat N) (2 ^ 53 - 1))) as [Hbig|_]; [lia|].
  unfold bind at 1. unfold bind at 1.
  destruct (generateFrom _ 0 w) as [l w1].
  unfold newArray, bind, ret, modify, saveProductsToFile, Array_length, readArray, get, bind.
  destruct (isVercel env); cbn; eexists; reflexivity.
Qed.

(** C9. A successful regeneration with [count = N] leaves a catalog of
    exactly [N] products whose ids are 1, 2, ..., [N], in this order, and
    afterwards a lookup by an id that is not one of them answers 404
    "Product not found". *)
Theorem regenerate_dense_ids
        (env : Env) (N : nat) (masterKey : option string) (w w' : World)
        (body : Regenerated.t) :
  regenerateProducts env (Some (inject_Z (Z.of_nat N))) masterKey w = (Json body, w') ->
  map Product.id (catalog w') = map Z.of_nat (seq 1 N)
  /\ length (catalog w') = N
  /\ Regenerated.count body = Z.of_nat N
  /\ forall param,
       (forall i, 1 <= i <= Z.of_nat N -> parseInt (Str param) <> ofZ i) ->
       fst (getProduct param w') = Error 404 "Product not found".
Proof.
  intros Hrun. apply regenerateProducts_catalog in Hrun. destruct Hrun as [Hcat Hcount].
  assert (Hids : map Product.id (catalog w') = map Z.of_nat (seq 1 N)).
  { rewrite Hcat, generateFrom_ids. apply map_ext. intros k. lia. }
  assert (Hlen : length (catalog w') = N).
  { rewrite <- (length_map Product.id), Hids, length_map, length_seq. reflexivity. }
  split; [exact Hids|]. split; [exact Hlen|].
  split; [rewrite Hcount, Hlen; reflexivity|].
  intros param Hparam.
  unfold getProduct, bind, get, Array_find, readArray, get, bind, ret. cbn [fst snd].
  fold (catalog w'). rewrite find_no_id; [reflexivity|].
  intros i Hi. rewrite Hids in Hi. apply in_map_iff in Hi.
  destruct Hi as (k & <- & Hk). apply in_seq in Hk. apply Hparam. lia.
Qed.

Lemma regenerate_dense_ids_witness :
  regenerateProducts Sample.env (Some (inject_Z (Z.of_nat 2))) (Some "secret")
    (Sample.world [Sample.phone])
  = (Json (Regenerated.mk "Products regenerated successfully" 2),
     snd (regenerateProducts Sample.env (Some (inject_Z (Z.of_nat 2))) (Some "secret")
            (Sample.world [Sample.phone])))
  /\ map Product.id
       (catalog (snd (regenerateProducts Sample.env (Some (inject_Z (Z.of_nat 2)))
                        (Some "secret") (Sample.world [Sample.phone]))))
     = map Z.of_nat (seq 1 2).
Proof.
  split; [reflexivity|].
  apply (regenerate_dense_ids Sample.env 2 (Some "secret") (Sample.world [Sample.phone])
           (snd (regenerateProducts Sample.env (Some (inject_Z (Z.of_nat 2))) (Some "secret")
                   (Sample.world [Sample.phone])))
           (Regenerated.mk "Products regenerated successfully" 2)).
  reflexivity.
Defined.

(** * Further properties *)

(** ** The middleware *)

Lemma includes_In (l : list string) (s : string) : Array_includes l s = true <-> In s l.
Proof.
  unfold Array_includes. rewrite existsb_exists. split.
  - intros (x & Hx & E). apply bool_decide_eq_true in E. subst. exact Hx.
  - intros H. exists s. split; [exact H|apply sameString_refl].
Qed.

(** X1. Who gets through the middleware.  In a key store whose records
    have integer expiry instants, a request is passed on to its route
    exactly in three cases: its path is the key-issuance path; or its
    [x-api-key] is a stored token whose expiry instant is not before the
    clock; or its [x-api-key] is not a stored token but the name of a
    property that the store inherits from [Object.prototype] (such as
    ["constructor"]), for which [apiKeys[apiKey]] is truthy and has no
    [expiresAt]. *)
Theorem validateApiKey_admits
        (env : Env) (path : string) (header : option string) (w : World) :
  integerExpiry w ->
  fst (validateApiKey env path header w) = Next
  <-> path = "/api/auth/generate-key"
      \/ exists token,
           header = Some token /\ token <> ""
           /\ ((exists e created,
                  apiKeys w !! token = Some (mkKeyData (ofZ e) created)
                  /\ clock w 0%nat <= e)
               \/ (apiKeys w !! token = None /\ In token objectPrototype)).
Proof.
  intros Hint. unfold validateApiKey.
  destruct (sameString_spec path "/api/auth/generate-key") as [->|Hpath].
  { split; [left; reflexivity|reflexivity]. }
  destruct header as [token|]; cbn [truthy negb].
  2: { split; [discriminate|]. intros [?|(t & ? & _)]; [contradiction|discriminate]. }
  unfold nonEmpty. destruct (sameString_spec token "") as [->|Htoken]; cbn [negb].
  { split; [discriminate|].
    intros [?|(t & Ht & Hne & _)]; [contradiction|]. injection Ht as <-. contradiction. }
  cbn [default from_option id]. unfold bind, get, lookupKey.
  destruct (apiKeys w !! token) as [[expires created]|] eqn:E.
  - destruct (Hint _ _ E) as [e He]. cbn [expiresAt] in He. subst expires.
    unfold Date_now. cbn [expiresAt]. rewrite gt_ofZ.
    destruct (Z.ltb_spec e (clock w 0%nat)) as [Hlt|Hle].
    + unfold modify, saveApiKeysToFile. destruct (isVercel env); cbn.
      all: split; [discriminate|].
      all: intros [?|(t & Ht & _ & [(e' & c' & E' & Hle')|[E' _]])]; [contradiction| |];
        injection Ht as <-; rewrite E in E'; [|discriminate].
      all: injection E' as He' _; lia.
    + split; [|reflexivity]. intros _. right. exists token.
      split; [reflexivity|]. split; [assumption|]. left. eauto.
  - destruct (Array_includes objectPrototype token) eqn:Ei.
    + split; [|reflexivity]. intros _. right. exists token.
      split; [reflexivity|]. split; [assumption|]. right.
      split; [assumption|apply includes_In; assumption].
    + split; [discriminate|].
      intros [?|(t & Ht & _ & [(e' & c' & E' & _)|[_ Hin]])]; [contradiction| |];
        injection Ht as <-; [rewrite E in E'; discriminate|].
      apply includes_In in Hin. congruence.
Qed.

Lemma validateApiKey_admits_witness :
  integerExpiry (Sample.world [])
  /\ (fst (validateApiKey Sample.env "/api/products" (Some "constructor") (Sample.world []))
      = Next
      <-> "/api/products" = "/api/auth/generate-key"
          \/ exists token,
               Some "constructor" = Some token /\ token <> ""
               /\ ((exists e created,
                      apiKeys (Sample.world []) !! token = Some (mkKeyData (ofZ e) created)
                      /\ clock (Sample.world []) 0%nat <= e)
                   \/ (apiKeys (Sample.world []) !! token = None /\ In token objectPrototype))).
Proof.
  assert (H : integerExpiry (Sample.world [])).
  { intros k keyData Hk. unfold Sample.world in Hk. cbn [apiKeys] in Hk.
    apply lookup_singleton_Some in Hk. destruct Hk as [_ <-]. exists 1000. reflexivity. }
  split; [exact H|].
  apply (validateApiKey_admits Sample.env "/api/products" (Some "constructor")
           (Sample.world []) H).
Defined.

(** X2. What the middleware can change.  Whatever the request, the
    middleware leaves the arrays, the catalog and the two oracles other
    than the clock as they are; every record of another token than the one
    presented stays in the key store, and no record is added or altered:
    the only change it can make to the store is to delete the presented
    token. *)
Theorem validateApiKey_frame
        (env : Env) (path : string) (header : option string) (w : World) :
  let w' := snd (validateApiKey env path header w) in
  arrays w' = arrays w
  /\ products w' = products w
  /\ productsFile w' = productsFile w
  /\ uuids w' = uuids w
  /\ faker w' = faker w
  /\ (forall k, header <> Some k -> apiKeys w' !! k = apiKeys w !! k)
  /\ (forall k keyData, apiKeys w' !! k = Some keyData -> apiKeys w !! k = Some keyData).
Proof.
  unfold validateApiKey.
  destruct (sameString path "/api/auth/generate-key"); [cbn; tauto|].
  destruct header as [token|]; cbn [truthy negb]; [|cbn; tauto].
  destruct (nonEmpty token); cbn [negb]; [|cbn; tauto].
  cbn [default from_option id]. unfold bind, get, lookupKey.
  destruct (apiKeys w !! token) as [keyData|] eqn:E.
  - unfold Date_now.
    destruct (gt _ _); [|cbn; tauto].
    unfold modify, saveApiKeysToFile. destruct (isVercel env); cbn.
    all: repeat split; try reflexivity.
    all: try (intros k Hk; apply lookup_delete_ne; congruence).
    all: intros k keyData' Hk; apply lookup_delete_Some in Hk; tauto.
  - destruct (Array_includes objectPrototype token); cbn; tauto.
Qed.

(** X3. An expired key is evicted once.  When the presented token is
    stored, has expired and is not the name of an inherited property, the
    first validation answers 401 "API key has expired"; the next one
    answers 401 "Invalid API key" and leaves the key store as it is. *)
Theorem expired_key_evicted_once
        (env : Env) (path token : string) (w : World) (e : Z) (created : number) :
  path <> "/api/auth/generate-key" ->
  token <> "" ->
  ~ In token objectPrototype ->
  apiKeys w !! token = Some (mkKeyData (ofZ e) created) ->
  e < clock w 0%nat ->
  let w1 := snd (validateApiKey env path (Some token) w) in
  let w2 := snd (validateApiKey env path (Some token) w1) in
  fst (validateApiKey env path (Some token) w) = Rejected 401 "API key has expired"
  /\ fst (validateApiKey env path (Some token) w1) = Rejected 401 "Invalid API key"
  /\ apiKeys w2 = apiKeys w1
  /\ apiKeys w1 = delete token (apiKeys w).
Proof.
  intros Hpath Htoken Hproto Hkey Hlt w1 w2.
  assert (Hrun : forall v, apiKeys v !! token = None ->
                           validateApiKey env path (Some token) v
                           = (Rejected 401 "Invalid API key", v)).
  { intros v Hv. unfold validateApiKey.
    rewrite (eqb_neq_false _ _ Hpath). unfold truthy, nonEmpty.
    rewrite (eqb_neq_false _ _ Htoken). cbn [negb default from_option id].
    unfold bind, get, lookupKey. rewrite Hv.
    destruct (Array_includes objectPrototype token) eqn:Ei; [|reflexivity].
    apply includes_In in Ei. contradiction. }
  assert (Hfirst : fst (validateApiKey env path (Some token) w)
                   = Rejected 401 "API key has expired"
                   /\ apiKeys w1 = delete token (apiKeys w)).
  { subst w1. unfold validateApiKey.
    rewrite (eqb_neq_false _ _ Hpath). unfold truthy, nonEmpty.
    rewrite (eqb_neq_false _ _ Htoken). cbn [negb default from_option id].
    unfold bind, get, lookupKey. rewrite Hkey.
    unfold Date_now. cbn [expiresAt]. rewrite gt_ofZ.
    destruct (Z.ltb_spec e (clock w 0%nat)); [|lia].
    unfold modify, saveApiKeysToFile. destruct (isVercel env); cbn; split; reflexivity. }
  destruct Hfirst as [Hv Hw1].
  assert (Hgone : apiKeys w1 !! token = None).
  { rewrite Hw1. apply lookup_delete_eq. }
  subst w2. rewrite (Hrun w1 Hgone). cbn [fst snd]. tauto.
Qed.

Lemma expired_key_evicted_once_witness :
  fst (validateApiKey Sample.env "/api/products" (Some "k1")
         (set_clock (fun _ => 2000) (Sample.world [])))
  = Rejected 401 "API key has expired"
  /\ fst (validateApiKey Sample.env "/api/products" (Some "k1")
            (snd (validateApiKey Sample.env "/api/products" (Some "k1")
                    (set_clock (fun _ => 2000) (Sample.world [])))))
     = Rejected 401 "Invalid API key".
Proof.
  pose proof (expired_key_evicted_once Sample.env "/api/products" "k1"
                (set_clock (fun _ => 2000) (Sample.world [])) 1000 (ofZ 0)) as H.
  cbv zeta in H.
  assert (Hp : ~ In "k1" objectPrototype).
  { intros Hin. apply includes_In in Hin. discriminate Hin. }
  destruct (H ltac:(discriminate) ltac:(discriminate) Hp ltac:(reflexivity) ltac:(reflexivity))
    as (H1 & H2 & _).
  split; assumption.
Defined.

(** X4. The key file follows the key store.  Outside Vercel, when
    [apiKeys.json] holds the key store before a request, it holds the key
    store after the middleware has run and after a key issuance, whatever
    their outcome. *)
Theorem key_file_follows_store (env : Env) (w : World) :
  isVercel env = false ->
  keysSaved w ->
  (forall path header, keysSaved (snd (validateApiKey env path header w)))
  /\ (forall expiresIn masterKey, keysSaved (snd (generateKey env expiresIn masterKey w))).
Proof.
  intros Hv Hsaved. unfold keysSaved in *. split.
  - intros path header. unfold validateApiKey.
    destruct (sameString path "/api/auth/generate-key"); [exact Hsaved|].
    destruct header as [token|]; cbn [truthy negb]; [|exact Hsaved].
    destruct (nonEmpty token); cbn [negb]; [|exact Hsaved].
    cbn [default from_option id]. unfold bind, get, lookupKey.
    destruct (apiKeys w !! token) as [keyData|].
    + unfold Date_now. destruct (gt _ _); [|exact Hsaved].
      unfold modify, saveApiKeysToFile. rewrite Hv. reflexivity.
    + destruct (Array_includes objectPrototype token); exact Hsaved.
  - intros expiresIn masterKey. unfold generateKey.
    destruct (wrongMasterKey env masterKey); [exact Hsaved|].
    destruct (matchDuration _) as [[amount unit]|]; [|exact Hsaved].
    unfold bind, Date_now, uuidv4, modify, saveApiKeysToFile. rewrite Hv.
    destruct (toISOString _); reflexivity.
Qed.

Lemma key_file_follows_store_witness :
  isVercel Sample.env = false
  /\ keysSaved (set_apiKeysFile (Some (apiKeys (Sample.world []))) (Sample.world []))
  /\ keysSaved (snd (generateKey Sample.env (Some "2d") (Some "secret")
                       (set_apiKeysFile (Some (apiKeys (Sample.world []))) (Sample.world [])))).
Proof.
  split; [reflexivity|]. split; [reflexivity|].
  apply (key_file_follows_store Sample.env
           (set_apiKeysFile (Some (apiKeys (Sample.world []))) (Sample.world []))).
  - reflexivity.
  - reflexivity.
Defined.



(** ** Key issuance *)

Lemma takeWhile_dropWhile {A : Type} (f : A -> bool) (l : list A) :
  (takeWhile f l ++ dropWhile f l)%list = l /\ Forall (fun x => f x = true) (takeWhile f l).
Proof.
  induction l as [|x l [IH1 IH2]]; cbn [takeWhile dropWhile]; [split; constructor|].
  destruct (f x) eqn:E; cbn [app].
  - rewrite IH1. split; [reflexivity|]. constructor; assumption.
  - split; [reflexivity|constructor].
Qed.

(** The regular expression accepts exactly the strings of the grammar. *)
Lemma matchDuration_inGrammar (s : string) :
  (exists groups, matchDuration s = Some groups) <-> inGrammar s.
Proof.
  split.
  - intros [[amount unit] Hm]. unfold matchDuration in Hm.
    destruct (takeWhile_dropWhile isDigit s) as [Happ Hall].
    destruct (takeWhile isDigit s) as [|c ds] eqn:Et; [discriminate|].
    destruct (dropWhile isDigit s) as [|u [|u' r]] eqn:Ed; try discriminate.
    exists (c :: ds), u. split; [exact Hall|]. split; [discriminate|].
    split.
    + unfold isUnit.
      destruct (bool_decide (u = "h"%unit)) eqn:E1; [apply bool_decide_eq_true in E1; tauto|].
      destruct (bool_decide (u = "d"%unit)) eqn:E2; [apply bool_decide_eq_true in E2; tauto|].
      destruct (bool_decide (u = "w"%unit)) eqn:E3; [apply bool_decide_eq_true in E3; tauto|].
      discriminate.
    + symmetry. exact Happ.
  - intros (digits & unit & Hd & Hne & Hu & ->). eexists.
    apply matchDuration_grammar; assumption.
Qed.

(** X6. Rejected issuances.  With a wrong master key the reply is 403,
    and with the right one and an [expiresIn] (or, when it is absent, the
    default ["1d"]) outside the grammar of durations the reply is 400; in
    both cases nothing changes: no key is stored, no clock reading and no
    token are consumed. *)
Theorem generateKey_rejections
        (env : Env) (expiresIn masterKey : option string) (w : World) :
  (masterKey <> MASTER_KEY env ->
   generateKey env expiresIn masterKey w = (Error 403 "Invalid master key", w))
  /\ (masterKey = MASTER_KEY env ->
      ~ inGrammar (default "1d" expiresIn) ->
      generateKey env expiresIn masterKey w
      = (Error 400 "Invalid expiresIn format. Use format like 1h, 1d, 7d", w)).
Proof.
  unfold generateKey, wrongMasterKey. split.
  - intros Hm. rewrite (bool_decide_eq_false_2 _ Hm). reflexivity.
  - intros Hm Hg. rewrite (bool_decide_eq_true_2 _ Hm). cbn [negb].
    destruct (matchDuration (default "1d" expiresIn)) as [groups|] eqn:E; [|reflexivity].
    exfalso. apply Hg. apply matchDuration_inGrammar. eauto.
Qed.

Lemma generateKey_rejections_witness :
  Some "nope" <> MASTER_KEY Sample.env
  /\ generateKey Sample.env None (Some "nope") (Sample.world [])
     = (Error 403 "Invalid master key", Sample.world [])
  /\ ~ inGrammar (default "1d" (Some "soon"))
  /\ generateKey Sample.env (Some "soon") (Some "secret") (Sample.world [])
     = (Error 400 "Invalid expiresIn format. Use format like 1h, 1d, 7d", Sample.world []).
Proof.
  assert (Hg : ~ inGrammar (default "1d" (Some "soon"))).
  { intros Hg. apply matchDuration_inGrammar in Hg. destruct Hg as [groups Hg].
    discriminate Hg. }
  destruct (generateKey_rejections Sample.env None (Some "nope") (Sample.world []))
    as [H403 _].
  destruct (generateKey_rejections Sample.env (Some "soon") (Some "secret") (Sample.world []))
    as [_ H400].
  split; [discriminate|]. split; [apply H403; discriminate|].
  split; [exact Hg|]. apply H400; [reflexivity|exact Hg].
Defined.

Lemma toISOString_ofZ (t : Z) :
  toISOString (ofZ t)
  = if Z.abs t <=? 8640000000000000 then Some t else None.
Proof.
  unfold toISOString, ofZ.
  assert (H : Qle_bool (Qabs (inject_Z t)) (inject_Z 8640000000000000)
              = (Z.abs t <=? 8640000000000000)).
  { unfold Qle_bool, Qabs, inject_Z. cbn [Qnum Qden]. rewrite !Z.mul_1_r. reflexivity. }
  rewrite H. destruct (Z.abs t <=? 8640000000000000); [|reflexivity].
  cbn [inject_Z Qnum Qden]. rewrite Z.quot_1_r. reflexivity.
Qed.

(** The world after an accepted issuance, field by field. *)
Lemma generateKey_accepts
      (env : Env) (w : World) (digits : string) (unit : codeUnit)
      (masterKey : option string) :
  masterKey = MASTER_KEY env ->
  Forall (fun c => isDigit c = true) digits ->
  digits <> [] ->
  isUnit unit ->
  let t := clock w 0%nat + amountOf digits * multiplier unit in
  let token := uuids w 0%nat in
  let run := generateKey env (Some (digits ++ [unit])) masterKey w in
  fst run = (if Z.abs t <=? 8640000000000000
             then Json (Issued.mk token t)
             else Thrown "RangeError: Invalid time value")
  /\ apiKeys (snd run) = <[token := mkKeyData (ofZ t) (ofZ (clock w 1%nat))]> (apiKeys w)
  /\ clock (snd run) = next (next (clock w))
  /\ uuids (snd run) = next (uuids w)
  /\ apiKeysFile (snd run)
     = (if isVercel env then apiKeysFile w else Some (apiKeys (snd run))).
Proof.
  intros Hmaster Hd Hne Hu t token run. subst run.
  unfold generateKey. cbn [default from_option id].
  unfold wrongMasterKey. rewrite (bool_decide_eq_true_2 _ Hmaster). cbn [negb].
  rewrite (matchDuration_grammar digits unit Hd Hne Hu).
  rewrite (parseInt_digits digits Hd Hne), (durationMap_multiplier unit Hu).
  rewrite mul_ofZ.
  unfold bind, Date_now, uuidv4, modify, saveApiKeysToFile.
  cbn [clock uuids set_clock set_uuids next].
  rewrite add_ofZ, toISOString_ofZ. fold t. fold token.
  destruct (isVercel env); destruct (Z.abs t <=? 8640000000000000); cbn;
    repeat split; reflexivity.
Qed.

(** X7. The reply of an accepted issuance.  With the master key, an
    [expiresIn] of the grammar and a clock that is not before the epoch,
    a record is stored under the new token, and the reply carries the
    token and the expiry instant [t = now + amount * multiplier] as long
    as [t] is an instant that a [Date] can hold
    ([t <= 8640000000000000]).  Beyond, [toISOString] throws after the
    key has been stored: the request fails but the key exists.  The
    stored [expiresAt] is [t] itself when [t] is a safe integer (beyond
    the safe integers the code stores a rounded value). *)
Theorem generateKey_reply
        (env : Env) (w : World) (digits : string) (unit : codeUnit)
        (masterKey : option string) :
  masterKey = MASTER_KEY env ->
  Forall (fun c => isDigit c = true) digits ->
  digits <> [] ->
  isUnit unit ->
  0 <= clock w 0%nat ->
  let t := clock w 0%nat + amountOf digits * multiplier unit in
  let token := uuids w 0%nat in
  let run := generateKey env (Some (digits ++ [unit])) masterKey w in
  (Z.abs t <= 8640000000000000 -> fst run = Json (Issued.mk token t))
  /\ (8640000000000000 < Z.abs t -> fst run = Thrown "RangeError: Invalid time value")
  /\ is_Some (apiKeys (snd run) !! token)
  /\ (isSafeInteger t ->
      exists keyData, apiKeys (snd run) !! token = Some keyData
                      /\ expiresAt keyData = ofZ t).
Proof.
  intros Hmaster Hd Hne Hu _ t token run.
  destruct (generateKey_accepts env w digits unit masterKey Hmaster Hd Hne Hu)
    as (Hreply & Hkeys & _).
  fold t token run in Hreply, Hkeys.
  split; [|split; [|split]].
  - intros Hin. rewrite Hreply. destruct (Z.leb_spec (Z.abs t) 8640000000000000); [reflexivity|lia].
  - intros Hout. rewrite Hreply. destruct (Z.leb_spec (Z.abs t) 8640000000000000); [lia|reflexivity].
  - rewrite Hkeys, lookup_insert_eq. eauto.
  - intros _. eexists. rewrite Hkeys, lookup_insert_eq. split; reflexivity.
Qed.

Lemma generateKey_reply_witness :
  Some "secret" = MASTER_KEY Sample.env
  /\ 0 <= clock (Sample.world []) 0%nat
  /\ isSafeInteger (1000 + 14285715 * 604800000)
  /\ fst (generateKey Sample.env (Some "14285715w") (Some "secret") (Sample.world []))
     = Thrown "RangeError: Invalid time value"
  /\ exists keyData,
       apiKeys (snd (generateKey Sample.env (Some "14285715w") (Some "secret")
                       (Sample.world []))) !! "uuid-0" = Some keyData
       /\ expiresAt keyData = ofZ (1000 + 14285715 * 604800000).
Proof.
  pose proof (generateKey_reply Sample.env (Sample.world [])
                "14285715" "w"%unit (Some "secret")) as H.
  cbv zeta in H.
  destruct H as (_ & Hthrown & _ & Hstored);
    [reflexivity|repeat constructor|discriminate|right; right; reflexivity
    |vm_compute; discriminate|].
  split; [reflexivity|]. split; [vm_compute; discriminate|].
  split; [vm_compute; discriminate|].
  split; [apply Hthrown; vm_compute; reflexivity|].
  apply Hstored. vm_compute. discriminate.
Defined.

(** X8. A new key opens the guarded routes.  After an accepted issuance,
    a request on a guarded path that presents the new token, and that the
    middleware mounted earlier pass on, reaches its handler, provided the
    token is not empty and the clock has not passed the expiry instant. *)
Theorem issued_key_opens_routes
        {A : Type} (env : Env) (w : World) (digits : string) (unit : codeUnit)
        (masterKey : option string) (path : string) (handler : M (Response A)) :
  masterKey = MASTER_KEY env ->
  Forall (fun c => isDigit c = true) digits ->
  digits <> [] ->
  isUnit unit ->
  path <> "/api/auth/generate-key" ->
  uuids w 0%nat <> "" ->
  clock w 2%nat <= clock w 0%nat + amountOf digits * multiplier unit ->
  let w1 := snd (generateKey env (Some (digits ++ [unit]))
                   masterKey w) in
  fst (validateApiKey env path (Some (uuids w 0%nat)) w1) = Next
  /\ guarded env None path (Some (uuids w 0%nat)) handler w1
     = (Handled (fst (handler (set_clock (next (clock w1)) w1))),
        snd (handler (set_clock (next (clock w1)) w1))).
Proof.
  intros Hmaster Hd Hne Hu Hpath Htoken Hclock w1.
  destruct (generateKey_accepts env w digits unit masterKey Hmaster Hd Hne Hu)
    as (_ & Hkeys & Hclk & _).
  fold w1 in Hkeys, Hclk.
  assert (Hrun : validateApiKey env path (Some (uuids w 0%nat)) w1
                 = (Next, set_clock (next (clock w1)) w1)).
  { unfold validateApiKey. rewrite (eqb_neq_false _ _ Hpath).
    unfold truthy, nonEmpty. rewrite (eqb_neq_false _ _ Htoken).
    cbn [negb default from_option id]. unfold bind, get, lookupKey.
    rewrite Hkeys, lookup_insert_eq. unfold Date_now. cbn [expiresAt].
    rewrite gt_ofZ, Hclk. unfold next at 1 2.
    destruct (Z.ltb_spec (clock w 0%nat + amountOf digits * multiplier unit) (clock w 2%nat));
      [lia|reflexivity]. }
  split; [rewrite Hrun; reflexivity|].
  unfold guarded, bind. rewrite Hrun. unfold ret.
  destruct (handler (set_clock (next (clock w1)) w1)). reflexivity.
Qed.

Lemma issued_key_opens_routes_witness :
  clock (Sample.world [Sample.lamp]) 2%nat
  <= clock (Sample.world [Sample.lamp]) 0%nat + amountOf "1" * multiplier "h"%unit
  /\ fst (validateApiKey Sample.env "/api/products" (Some "uuid-0")
            (snd (generateKey Sample.env (Some "1h") (Some "secret")
                    (Sample.world [Sample.lamp])))) = Next.
Proof.
  split; [vm_compute; discriminate|].
  apply (issued_key_opens_routes (A := Listing.t) Sample.env (Sample.world [Sample.lamp])
           "1" "h"%unit (Some "secret") "/api/products"
           (listProducts Sample.env Sample.query));
    [reflexivity|repeat constructor|discriminate|left; reflexivity|discriminate
    |discriminate|vm_compute; discriminate].
Defined.

(** X9. An issuance keeps the other keys and the catalog.  Whatever its
    outcome, a key issuance changes no record of the key store other than
    the one of the token it draws, and leaves the arrays, the catalog and
    the catalog file as they are. *)
Theorem generateKey_frame
        (env : Env) (expiresIn masterKey : option string) (w : World) :
  let w' := snd (generateKey env expiresIn masterKey w) in
  (forall k, k <> uuids w 0%nat -> apiKeys w' !! k = apiKeys w !! k)
  /\ arrays w' = arrays w
  /\ products w' = products w
  /\ productsFile w' = productsFile w
  /\ faker w' = faker w.
Proof.
  unfold generateKey.
  destruct (wrongMasterKey env masterKey); [cbn; tauto|].
  destruct (matchDuration _) as [[amount unit]|]; [|cbn; tauto].
  unfold bind, Date_now, uuidv4, modify, saveApiKeysToFile.
  destruct (isVercel env); destruct (toISOString _); cbn;
    (split; [intros k Hk; apply lookup_insert_ne; congruence|tauto]).
Qed.

(** ** The listing *)

Lemma surviving_setLimit_setOffset (env : Env) (q : Query.t) (w : World) (lim off : option string) :
  surviving env (setLimit lim (setOffset off q)) w = surviving env q w.
Proof. rewrite !surviving_keeps. reflexivity. Qed.

(** X10. [total] does not depend on the page.  Whatever [limit] and
    [offset] are, readable or not, [total] is the number of products that
    survive the filters. *)
Theorem total_ignores_pagination
        (env : Env) (q : Query.t) (w : World) (lim off : option string) :
  total env (setLimit lim (setOffset off q)) w
  = Some (Z.of_nat (length (surviving env q w))).
Proof.
  unfold total. rewrite listing_answer. unfold answer.
  cbn [fmap option_fmap option_map Listing.pagination Pagination.total].
  rewrite arranged_length, surviving_setLimit_setOffset. reflexivity.
Qed.

Lemma slice_segment {A : Type} (l : list A) (a b : number) :
  exists before after, l = (before ++ slice l a b ++ after)%list.
Proof.
  unfold slice.
  set (k := Z.to_nat (relativeIndex (Z.of_nat (length l)) (ToIntegerOrInfinity a))).
  set (n := Z.to_nat _).
  exists (take k l), (drop n (drop k l)).
  rewrite (take_drop n (drop k l)), take_drop. reflexivity.
Qed.

Lemma slice_length_le {A : Type} (l : list A) (o L : Z) :
  0 <= L -> Z.of_nat (length (slice l (ofZ o) (ofZ (o + L)))) <= L.
Proof.
  intros HL. unfold slice. rewrite !ToIntegerOrInfinity_ofZ.
  set (len := Z.of_nat (length l)).
  assert (Hlen : 0 <= len) by apply Nat2Z.is_nonneg.
  rewrite length_take. cbn [relativeIndex].
  destruct (Z.ltb_spec o 0); destruct (Z.ltb_spec (o + L) 0); lia.
Qed.

(** X11. The page is a window of at most [limit] products.  Whatever the
    request, the page is a run of consecutive elements of the filtered
    and sorted array, in the same order; and when [limit] is an integer
    [L] that is not negative, the page has at most [L] products, whatever
    [offset] is.  (A negative limit gives no such bound: [slice] counts a
    negative end from the end of the array.) *)
Theorem page_is_window (env : Env) (q : Query.t) (w : World) (L : Z) :
  0 <= L ->
  Params.limit (convert q) = ofZ L ->
  (exists before after,
     arranged env q w = (before ++ page env q w ++ after)%list)
  /\ Z.of_nat (length (page env q w)) <= L.
Proof.
  intros HL Hlim. rewrite page_slice. split; [apply slice_segment|].
  rewrite Hlim.
  assert (Hoff : Params.offset (convert q) = NaN
                 \/ exists o, Params.offset (convert q) = ofZ o)
    by apply parseInt_cases.
  destruct Hoff as [->|[o ->]].
  - cbn [add]. rewrite slice_end_NaN. simpl. lia.
  - rewrite add_ofZ. apply slice_length_le. exact HL.
Qed.

Lemma page_is_window_witness :
  0 <= 2
  /\ Params.limit (convert (setLimit (Some "2") (setOffset (Some "-1") Sample.query))) = ofZ 2
  /\ Z.of_nat (length (page Sample.env (setLimit (Some "2") (setOffset (Some "-1") Sample.query))
                         (Sample.world [Sample.phone; Sample.lamp; Sample.novel]))) <= 2.
Proof.
  split; [lia|]. split; [reflexivity|].
  apply (page_is_window Sample.env (setLimit (Some "2") (setOffset (Some "-1") Sample.query))
           (Sample.world [Sample.phone; Sample.lamp; Sample.novel]) 2);
    [lia|reflexivity].
Defined.

(** *** The order of the listing *)

Section Sorting.

Context {A : Type} (cmp : A -> A -> number).

Hypothesis cmp_asym :
  forall a b, gt (cmp a b) (ofZ 0) = true -> gt (cmp b a) (ofZ 0) = false.

Lemma insertSorted_Permutation (x : A) (l : list A) :
  insertSorted cmp x l ≡ₚ x :: l.
Proof.
  induction l as [|y l IH]; cbn [insertSorted]; [reflexivity|].
  destruct (gt (cmp x y) (ofZ 0)); [|reflexivity].
  rewrite IH. apply Permutation_swap.
Qed.

Lemma sorted_Permutation (l : list A) : sorted cmp l ≡ₚ l.
Proof.
  induction l as [|x l IH]; [reflexivity|].
  cbn [sorted foldr]. fold (sorted cmp l).
  rewrite insertSorted_Permutation, IH. reflexivity.
Qed.

Lemma insertSorted_HdRel (y x : A) (l : list A) :
  (notAfter cmp) y x -> HdRel (notAfter cmp) y l -> HdRel (notAfter cmp) y (insertSorted cmp x l).
Proof.
  intros Hyx Hyl. destruct l as [|z l]; cbn [insertSorted].
  - constructor. exact Hyx.
  - destruct (gt (cmp x z) (ofZ 0)); constructor; [|exact Hyx].
    inversion Hyl. assumption.
Qed.

Lemma insertSorted_Sorted (x : A) (l : list A) :
  Sorted (notAfter cmp) l -> Sorted (notAfter cmp) (insertSorted cmp x l).
Proof.
  induction 1 as [|y l Hl IH Hy]; cbn [insertSorted].
  - repeat constructor.
  - destruct (gt (cmp x y) (ofZ 0)) eqn:E.
    + constructor; [exact IH|]. apply insertSorted_HdRel; [|exact Hy].
      apply cmp_asym. exact E.
    + constructor; [constructor; assumption|]. constructor. exact E.
Qed.

Lemma sorted_Sorted (l : list A) : Sorted (notAfter cmp) (sorted cmp l).
Proof.
  induction l as [|x l IH]; [constructor|].
  cbn [sorted foldr]. fold (sorted cmp l). apply insertSorted_Sorted. exact IH.
Qed.

(** Elements that the comparator does not order keep their places. *)
Lemma insertSorted_filter (f : A -> bool) (x : A) (l : list A) :
  (forall y, f x = true -> f y = true -> gt (cmp x y) (ofZ 0) = false) ->
  List.filter f (insertSorted cmp x l)
  = if f x then x :: List.filter f l else List.filter f l.
Proof.
  intros Hf. induction l as [|y l IH]; cbn [insertSorted List.filter].
  - reflexivity.
  - destruct (gt (cmp x y) (ofZ 0)) eqn:E; cbn [List.filter].
    + rewrite IH. destruct (f x) eqn:Ex; destruct (f y) eqn:Ey; try reflexivity.
      rewrite (Hf y eq_refl Ey) in E. discriminate.
    + reflexivity.
Qed.

Lemma sorted_filter (f : A -> bool) (l : list A) :
  (forall x y, f x = true -> f y = true -> gt (cmp x y) (ofZ 0) = false) ->
  List.filter f (sorted cmp l) = List.filter f l.
Proof.
  intros Hf. induction l as [|x l IH]; [reflexivity|].
  cbn [sorted foldr List.filter]. fold (sorted cmp l).
  rewrite insertSorted_filter by (apply Hf). rewrite IH. reflexivity.
Qed.

End Sorting.

Lemma Sorted_weaken {A : Type} (R R' : A -> A -> Prop) (l : list A) :
  (forall a b, R a b -> R' a b) -> Sorted R l -> Sorted R' l.
Proof.
  intros Himp. induction 1 as [|x l Hl IH Hx]; constructor; [exact IH|].
  destruct Hx; constructor. auto.
Qed.

Lemma gt_zero (z : Q) : gt (Fin z) (ofZ 0) = true <-> (0 < z)%Q.
Proof.
  unfold gt, ge, ofZ. rewrite Bool.negb_true_iff.
  change (inject_Z 0) with 0%Q.
  destruct (Qle_bool z 0) eqn:E.
  - apply Qle_bool_iff in E. split; [discriminate|]. intros H.
    exfalso. apply (Qlt_not_le _ _ H). exact E.
  - split; [|reflexivity]. intros _. apply Qnot_le_lt. intros H.
    apply Qle_bool_iff in H. congruence.
Qed.

Lemma gt_sub (x y : Q) : gt (sub (Fin x) (Fin y)) (ofZ 0) = true <-> (y < x)%Q.
Proof.
  unfold sub, neg, add. rewrite gt_zero.
  rewrite (Qred_correct (x + Qred (- y))), (Qred_correct (- y)).
  split; intros H.
  - apply (Qplus_lt_l _ _ (- y)). rewrite Qplus_opp_r. exact H.
  - apply (Qplus_lt_l _ _ (- y)) in H. rewrite Qplus_opp_r in H. exact H.
Qed.

Lemma gt_neg_sub (x y : Q) : gt (neg (sub (Fin x) (Fin y))) (ofZ 0) = true <-> (x < y)%Q.
Proof.
  unfold sub, neg, add. rewrite gt_zero.
  rewrite (Qred_correct (- Qred (x + Qred (- y)))),
          (Qred_correct (x + Qred (- y))), (Qred_correct (- y)).
  split; intros H.
  - apply (Qplus_lt_l _ _ (- y)). rewrite Qplus_opp_r.
    apply Qopp_lt_compat in H. rewrite Qopp_opp in H. exact H.
  - apply (Qplus_lt_l _ _ (- y)) in H. rewrite Qplus_opp_r in H.
    apply Qopp_lt_compat in H. exact H.
Qed.

(** The comparator of the handler, when [sort] is not ["title"], is the
    difference of the sort keys, negated for ["desc"]. *)
Lemma comparator_sortKey (env : Env) (q : Query.t) (a b : Product.t) :
  Query.sort q <> Some "title" ->
  comparator env (Params.sort (convert q)) (Params.order (convert q)) a b
  = let difference := sub (Fin (sortKey (Query.sort q) a)) (Fin (sortKey (Query.sort q) b)) in
    if bool_decide (Query.order q = Some "desc") then neg difference else difference.
Proof.
  intros Htitle. unfold comparator, convert, sortKey.
  cbn [Params.sort Params.order].
  assert (Horder : sameString (default "asc" (Query.order q)) "desc"
                   = bool_decide (Query.order q = Some "desc")).
  { destruct (Query.order q) as [o|]; cbn [default from_option id]; [|reflexivity].
    destruct (sameString_spec o "desc") as [->|Hne].
    - rewrite bool_decide_eq_true_2; reflexivity.
    - rewrite bool_decide_eq_false_2; [reflexivity|congruence]. }
  rewrite Horder.
  destruct (Query.sort q) as [s|]; cbn [default from_option id].
  - destruct (sameString_spec s "price") as [->|Hprice].
    + rewrite (bool_decide_eq_true_2 (Some "price" = Some "price")) by reflexivity.
      reflexivity.
    + rewrite (bool_decide_eq_false_2 (Some s = Some "price")) by congruence.
      destruct (sameString_spec s "title") as [->|_]; [contradiction|reflexivity].
  - reflexivity.
Qed.

(** Sorting any array with the comparator of the handler. *)
Lemma sorted_by_sortKey (env : Env) (q : Query.t) (l : list Product.t) :
  Query.sort q <> Some "title" ->
  let result := sorted (comparator env (Params.sort (convert q)) (Params.order (convert q))) l in
  Permutation result l
  /\ (Query.order q <> Some "desc" ->
      StronglySorted (fun a b => (sortKey (Query.sort q) a <= sortKey (Query.sort q) b)%Q)
                     result)
  /\ (Query.order q = Some "desc" ->
      StronglySorted (fun a b => (sortKey (Query.sort q) b <= sortKey (Query.sort q) a)%Q)
                     result).
Proof.
  intros Htitle. cbv zeta.
  set (cmp := comparator env (Params.sort (convert q)) (Params.order (convert q))).
  assert (Hcmp : forall a b,
             cmp a b = let difference := sub (Fin (sortKey (Query.sort q) a))
                                             (Fin (sortKey (Query.sort q) b)) in
                       if bool_decide (Query.order q = Some "desc")
                       then neg difference else difference)
    by (intros; apply comparator_sortKey; assumption).
  assert (Hasym : forall a b, gt (cmp a b) (ofZ 0) = true -> gt (cmp b a) (ofZ 0) = false).
  { intros a b. rewrite !Hcmp. cbv zeta.
    destruct (bool_decide (Query.order q = Some "desc")).
    - rewrite gt_neg_sub. intros H.
      destruct (gt (neg (sub _ _)) (ofZ 0)) eqn:E; [|reflexivity].
      apply gt_neg_sub in E. exfalso. apply (Qlt_irrefl (sortKey (Query.sort q) a)).
      eapply Qlt_trans; eassumption.
    - rewrite gt_sub. intros H.
      destruct (gt (sub _ _) (ofZ 0)) eqn:E; [|reflexivity].
      apply gt_sub in E. exfalso. apply (Qlt_irrefl (sortKey (Query.sort q) a)).
      eapply Qlt_trans; eassumption. }
  pose proof (sorted_Sorted cmp Hasym l) as Hsorted.
  split; [apply sorted_Permutation|]. split.
  - intros Hasc. apply Sorted_StronglySorted.
    { intros a b c. apply Qle_trans. }
    refine (Sorted_weaken _ _ _ _ Hsorted). intros a b Hab.
    unfold notAfter in Hab. rewrite Hcmp in Hab. cbv zeta in Hab.
    rewrite bool_decide_eq_false_2 in Hab by assumption.
    apply Qnot_lt_le. intros Hlt. apply gt_sub in Hlt. congruence.
  - intros Hdesc. apply Sorted_StronglySorted.
    { intros a b c H1 H2. eapply Qle_trans; eassumption. }
    refine (Sorted_weaken _ _ _ _ Hsorted). intros a b Hab.
    unfold notAfter in Hab. rewrite Hcmp in Hab. cbv zeta in Hab.
    rewrite bool_decide_eq_true_2 in Hab by assumption.
    apply Qnot_lt_le. intros Hlt. apply gt_neg_sub in Hlt. congruence.
Qed.

(** X12. The listing is the survivors, in key order.  When [sort] is not
    ["title"], the sorted array is a rearrangement of the products that
    survive the filters in which the sort keys (the price for
    [sort=price], the id otherwise) never decrease, or never increase when
    [order] is ["desc"]; any other [order] sorts upwards. *)
Theorem arranged_in_order (env : Env) (q : Query.t) (w : World) :
  Query.sort q <> Some "title" ->
  Permutation (arranged env q w) (surviving env q w)
  /\ (Query.order q <> Some "desc" ->
      StronglySorted (fun a b => (sortKey (Query.sort q) a <= sortKey (Query.sort q) b)%Q)
                     (arranged env q w))
  /\ (Query.order q = Some "desc" ->
      StronglySorted (fun a b => (sortKey (Query.sort q) b <= sortKey (Query.sort q) a)%Q)
                     (arranged env q w)).
Proof.
  intros Htitle. rewrite arranged_sorted.
  apply (sorted_by_sortKey env q (surviving env q w) Htitle).
Qed.

Lemma arranged_in_order_witness :
  Query.sort (Query.mk None None (Some "price") (Some "desc") None None None None)
  <> Some "title"
  /\ Permutation
       (arranged Sample.env (Query.mk None None (Some "price") (Some "desc") None None None None)
          (Sample.world [Sample.lamp; Sample.phone; Sample.novel]))
       (surviving Sample.env (Query.mk None None (Some "price") (Some "desc") None None None None)
          (Sample.world [Sample.lamp; Sample.phone; Sample.novel])).
Proof.
  split; [discriminate|].
  apply (arranged_in_order Sample.env
           (Query.mk None None (Some "price") (Some "desc") None None None None)
           (Sample.world [Sample.lamp; Sample.phone; Sample.novel])).
  discriminate.
Defined.

Lemma surviving_setOrder (env : Env) (q : Query.t) (w : World) (o : option string) :
  surviving env (setOrder o q) w = surviving env q w.
Proof. rewrite !surviving_keeps. reflexivity. Qed.

(** X13. Products with equal keys keep the order of the catalog.  When
    [sort] is not ["title"], the products of the sorted array that have a
    given sort key are those of the filtered array, in the same order:
    sorting never swaps two products with equal prices (or ids). *)
Theorem ties_keep_catalog_order (env : Env) (q : Query.t) (w : World) (v : Q) :
  Query.sort q <> Some "title" ->
  List.filter (fun p => Qeq_bool (sortKey (Query.sort q) p) v) (arranged env q w)
  = List.filter (fun p => Qeq_bool (sortKey (Query.sort q) p) v) (surviving env q w).
Proof.
  intros Htitle. rewrite arranged_sorted. apply sorted_filter.
  intros x y Hx Hy. apply Qeq_bool_iff in Hx. apply Qeq_bool_iff in Hy.
  rewrite comparator_sortKey by assumption. cbv zeta.
  destruct (bool_decide (Query.order q = Some "desc")).
  - destruct (gt (neg (sub _ _)) (ofZ 0)) eqn:E; [|reflexivity].
    apply gt_neg_sub in E. rewrite Hx, Hy in E. exfalso. exact (Qlt_irrefl _ E).
  - destruct (gt (sub _ _) (ofZ 0)) eqn:E; [|reflexivity].
    apply gt_sub in E. rewrite Hx, Hy in E. exfalso. exact (Qlt_irrefl _ E).
Qed.

Lemma ties_keep_catalog_order_witness :
  Query.sort (Query.mk None None (Some "price") None None None None None) <> Some "title"
  /\ List.filter (fun p => Qeq_bool (sortKey (Some "price") p) 20)
       (arranged Sample.env (Query.mk None None (Some "price") None None None None None)
          (Sample.world [Sample.product 7 "Vase" 20 "Home & Kitchen"; Sample.phone; Sample.lamp]))
     = List.filter (fun p => Qeq_bool (sortKey (Some "price") p) 20)
         (surviving Sample.env (Query.mk None None (Some "price") None None None None None)
            (Sample.world [Sample.product 7 "Vase" 20 "Home & Kitchen"; Sample.phone; Sample.lamp])).
Proof.
  split; [discriminate|].
  apply (ties_keep_catalog_order Sample.env
           (Query.mk None None (Some "price") None None None None None)
           (Sample.world [Sample.product 7 "Vase" 20 "Home & Kitchen"; Sample.phone; Sample.lamp])
           20).
  discriminate.
Defined.

(** X14. Without ties, ["desc"] is the reverse.  When [sort] is not
    ["title"] and no two surviving products have equal sort keys, the
    array sorted with [order=desc] is the reverse of the array sorted
    with any other [order]. *)
Theorem descending_is_reverse
        (env : Env) (q : Query.t) (w : World) (o : option string) :
  Query.sort q <> Some "title" ->
  o <> Some "desc" ->
  noTies (Query.sort q) (surviving env q w) ->
  arranged env (setOrder (Some "desc") q) w = reverse (arranged env (setOrder o q) w).
Proof.
  intros Htitle Ho Hties.
  pose proof (sorted_by_sortKey env (setOrder (Some "desc") q)
                (surviving env (setOrder (Some "desc") q) w) Htitle) as Hd.
  pose proof (sorted_by_sortKey env (setOrder o q) (surviving env (setOrder o q) w) Htitle) as Ha.
  cbv zeta in Hd, Ha. rewrite <- arranged_sorted in Hd, Ha.
  destruct Hd as (Pd & _ & Sd). destruct Ha as (Pa & Sa & _).
  specialize (Sd eq_refl). specialize (Sa Ho).
  cbn [setOrder Query.sort Query.order] in Sd, Sa.
  rewrite surviving_setOrder in Pd, Pa.
  set (le := fun a b => (sortKey (Query.sort q) a <= sortKey (Query.sort q) b)%Q) in *.
  assert (Htrans : Transitive le) by (intros a b c; apply Qle_trans).
  rewrite <- (reverse_involutive (arranged env (setOrder (Some "desc") q) w)).
  f_equal.
  apply (Sorted_unique_strong le).
  - intros x1 x2 H1 H2 H12 H21.
    assert (Heq : (sortKey (Query.sort q) x1 == sortKey (Query.sort q) x2)%Q)
      by (apply Qle_antisym; assumption).
    rewrite elem_of_reverse in H1. rewrite Pd in H1. rewrite Pa in H2.
    apply list_elem_of_lookup in H1. destruct H1 as [i Hi].
    apply list_elem_of_lookup in H2. destruct H2 as [j Hj].
    destruct (decide (i = j)) as [->|Hij]; [congruence|].
    exfalso. exact (Hties i j x1 x2 Hi Hj Hij Heq).
  - apply (Sorted_reverse (fun a b => le b a)).
    apply StronglySorted_Sorted. exact Sd.
  - apply StronglySorted_Sorted. exact Sa.
  - rewrite reverse_Permutation, Pd, Pa. reflexivity.
Qed.

Lemma descending_is_reverse_witness :
  noTies (Some "price") (surviving Sample.env (Query.mk None None (Some "price") None None None None None)
                           (Sample.world [Sample.lamp; Sample.phone; Sample.novel]))
  /\ arranged Sample.env
       (setOrder (Some "desc") (Query.mk None None (Some "price") None None None None None))
       (Sample.world [Sample.lamp; Sample.phone; Sample.novel])
     = reverse (arranged Sample.env
                  (setOrder (Some "asc") (Query.mk None None (Some "price") None None None None None))
                  (Sample.world [Sample.lamp; Sample.phone; Sample.novel])).
Proof.
  assert (H : noTies (Some "price")
                (surviving Sample.env (Query.mk None None (Some "price") None None None None None)
                   (Sample.world [Sample.lamp; Sample.phone; Sample.novel]))).
  { intros i j a b Hi Hj Hij.
    change (surviving Sample.env _ _) with [Sample.lamp; Sample.phone; Sample.novel] in Hi, Hj.
    destruct i as [|[|[|i]]]; destruct j as [|[|[|j]]]; try discriminate Hi;
      try discriminate Hj; try (exfalso; apply Hij; reflexivity);
      injection Hi as <-; injection Hj as <-; intros Heq; vm_compute in Heq;
      discriminate Heq. }
  split; [exact H|].
  apply (descending_is_reverse Sample.env
           (Query.mk None None (Some "price") None None None None None)
           (Sample.world [Sample.lamp; Sample.phone; Sample.novel]) (Some "asc"));
    [discriminate|discriminate|exact H].
Defined.

(** *** The filters *)

Lemma split_one (sep : codeUnit) (a : string) :
  ~ In sep a -> split sep a = [a].
Proof.
  induction a as [|c a IH]; intros Hfree; cbn [split]; [reflexivity|].
  rewrite bool_decide_eq_false_2 by (intros ->; apply Hfree; left; reflexivity).
  rewrite IH by (intros H; apply Hfree; right; exact H). reflexivity.
Qed.

Lemma split_cons (sep : codeUnit) (a r : string) :
  ~ In sep a -> split sep (a ++ sep :: r) = a :: split sep r.
Proof.
  induction a as [|c a IH]; intros Hfree; cbn [app split].
  - rewrite bool_decide_eq_true_2 by reflexivity. reflexivity.
  - rewrite bool_decide_eq_false_2 by (intros ->; apply Hfree; left; reflexivity).
    rewrite IH by (intros H; apply Hfree; right; exact H). reflexivity.
Qed.

(** [split] undoes [join] on pieces that have no comma. *)
Lemma split_join (pieces : list string) :
  pieces <> [] ->
  (forall p, In p pieces -> ~ In ","%unit p) ->
  split ","%unit (join pieces) = pieces.
Proof.
  intros Hne Hfree.
  induction pieces as [|p rest IH]; [contradiction|].
  destruct rest as [|p' rest].
  - cbn [join]. apply split_one. apply Hfree. left. reflexivity.
  - change (join (p :: p' :: rest)) with (p ++ ","%unit :: join (p' :: rest)).
    rewrite split_cons by (apply Hfree; left; reflexivity).
    rewrite IH; [reflexivity|discriminate|].
    intros x Hx. apply Hfree. right. exact Hx.
Qed.

(** X15. The category filter matches whole names.  When [category] is
    the comma-separated list of some names (none of which has a comma), a
    product passes the category filter exactly when its category is one
    of these names, code unit for code unit; the comparison neither trims
    nor folds case. *)
Theorem category_matches_names
        (env : Env) (q : Query.t) (w : World) (names : list string) (x : Product.t) :
  names <> [] ->
  (forall n, In n names -> ~ In ","%unit n) ->
  join names <> "" ->
  Query.category q = Some (join names) ->
  (In x (surviving env (onlyCategory q) w)
   <-> In x (catalog w) /\ In (Product.category x) names)
  /\ (In x (surviving env q w) -> In (Product.category x) names).
Proof.
  intros Hne Hfree Hjoin Hcat.
  assert (Hin : inCategories (join names) x = true <-> In (Product.category x) names).
  { unfold inCategories. rewrite split_join by assumption. apply includes_In. }
  assert (Hn : nonEmpty (join names) = true).
  { unfold nonEmpty. rewrite (eqb_neq_false _ _ Hjoin). reflexivity. }
  rewrite !surviving_keeps, !filter_In. unfold keeps, convert, onlyCategory.
  cbn [Params.category Params.minPrice Params.maxPrice Params.search
       Query.category Query.minPrice Query.maxPrice Query.search
       truthy fmap option_fmap option_map].
  rewrite Hcat, Hn. rewrite !Bool.andb_true_iff.
  split; [|tauto]. split; intros H; [|tauto].
  split; [tauto|]. apply Hin. tauto.
Qed.

Lemma category_matches_names_witness :
  join ["Books"; "Electronics"] <> ""
  /\ (In Sample.phone
        (surviving Sample.env
           (onlyCategory (Query.mk None None None None (Some "Books,Electronics")
                            None None None))
           (Sample.world [Sample.lamp; Sample.phone]))
      <-> In Sample.phone (catalog (Sample.world [Sample.lamp; Sample.phone]))
          /\ In (Product.category Sample.phone) ["Books"; "Electronics"]).
Proof.
  split; [discriminate|].
  apply (category_matches_names Sample.env
           (Query.mk None None None None (Some "Books,Electronics") None None None)
           (Sample.world [Sample.lamp; Sample.phone]) ["Books"; "Electronics"] Sample.phone).
  - discriminate.
  - intros n [<-|[<-|[]]]; cbn; intros H;
      repeat (destruct H as [H|H]; [discriminate H|]); exact H.
  - discriminate.
  - reflexivity.
Defined.

Lemma parseFloat_nonEmpty (s : string) (v : Q) : parseFloat s = Fin v -> nonEmpty s = true.
Proof.
  destruct s; [discriminate|reflexivity].
Qed.

(** X16. The price bounds are inclusive.  When [minPrice] and [maxPrice]
    are decimal literals whose values [lo] and [hi] a double holds, every
    surviving product has [lo <= price <= hi]; and when there is no other
    filter, the survivors are exactly the products of the catalog with
    [lo <= price <= hi], a price equal to a bound included.  (A literal
    whose value no double holds is rounded by [parseFloat], and the
    bound is then the rounded value.) *)
Theorem price_bounds_inclusive
        (env : Env) (q : Query.t) (w : World) (smin smax : string) (lo hi : Q)
        (x : Product.t) :
  Query.minPrice q = Some smin -> parseFloat smin = Fin lo -> isDouble lo ->
  Query.maxPrice q = Some smax -> parseFloat smax = Fin hi -> isDouble hi ->
  (In x (surviving env q w) -> (lo <= Product.price x <= hi)%Q)
  /\ (Query.category q = None -> Query.search q = None ->
      (In x (surviving env q w)
       <-> In x (catalog w) /\ (lo <= Product.price x <= hi)%Q)).
Proof.
  intros Hmin Hlo _ Hmax Hhi _.
  rewrite !surviving_keeps, !filter_In. unfold keeps, convert.
  cbn [Params.category Params.minPrice Params.maxPrice Params.search].
  rewrite Hmin, Hmax. cbn [truthy fmap option_fmap option_map].
  rewrite (parseFloat_nonEmpty _ _ Hlo), (parseFloat_nonEmpty _ _ Hhi), Hlo, Hhi.
  unfold atLeast, atMost, le, ge. rewrite !Bool.andb_true_iff, !Qle_bool_iff.
  split; [tauto|]. intros -> ->. tauto.
Qed.

Lemma price_bounds_inclusive_witness :
  parseFloat "12.5" = Fin (25 # 2)
  /\ isDouble (25 # 2)
  /\ parseFloat "20" = Fin 20
  /\ isDouble 20
  /\ (In Sample.novel
        (surviving Sample.env (Query.mk None None None None None (Some "12.5") (Some "20") None)
           (Sample.world [Sample.lamp; Sample.novel; Sample.phone]))
      <-> In Sample.novel (catalog (Sample.world [Sample.lamp; Sample.novel; Sample.phone]))
          /\ (25 # 2 <= Product.price Sample.novel <= 20)%Q).
Proof.
  assert (Hlo : isDouble (25 # 2)).
  { exists 25, (-1). split; [vm_compute; reflexivity|]. split; [lia|reflexivity]. }
  assert (Hhi : isDouble 20).
  { exists 20, 0. split; [vm_compute; reflexivity|]. split; [lia|reflexivity]. }
  split; [reflexivity|]. split; [exact Hlo|]. split; [reflexivity|]. split; [exact Hhi|].
  apply (price_bounds_inclusive Sample.env
           (Query.mk None None None None None (Some "12.5") (Some "20") None)
           (Sample.world [Sample.lamp; Sample.novel; Sample.phone])
           "12.5" "20" (25 # 2) 20 Sample.novel); (reflexivity || assumption).
Defined.

Lemma isPrefix_spec (p l : string) :
  isPrefix p l = true <-> exists after, l = p ++ after.
Proof.
  revert l. induction p as [|a p IH]; intros l; cbn [isPrefix].
  - split; [intros _; exists l; reflexivity|reflexivity].
  - destruct l as [|b l].
    + split; [discriminate|]. intros [after H]. discriminate H.
    + rewrite Bool.andb_true_iff, bool_decide_eq_true, IH. split.
      * intros [-> [after ->]]. exists after. reflexivity.
      * intros [after H]. injection H as -> ->. split; [reflexivity|eauto].
Qed.

Lemma occursIn_spec (t l : string) :
  occursIn t l = true <-> exists before after, l = before ++ t ++ after.
Proof.
  induction l as [|c l IH]; cbn [occursIn]; rewrite Bool.orb_true_iff, isPrefix_spec.
  - split.
    + intros [[after H]|H]; [|discriminate]. exists [], after. exact H.
    + intros (before & after & H). left.
      destruct before; [exists after; exact H|discriminate H].
  - rewrite IH. split.
    + intros [[after H]|(before & after & H)].
      * exists [], after. exact H.
      * exists (c :: before), after. rewrite H. reflexivity.
    + intros (before & after & H). destruct before as [|b before].
      * left. exists after. exact H.
      * right. injection H as _ H. exists before, after. exact H.
Qed.

Lemma includes_contains (text fragment : string) :
  String_includes text fragment = true <-> contains text fragment.
Proof. unfold String_includes, contains. apply occursIn_spec. Qed.

(** X17. The search is a substring search on lower-cased text.  With a
    non-empty [search], a product passes the search filter exactly when
    the lower-cased search text occurs, code unit for code unit, in the
    lower-cased title or in the lower-cased description of the product,
    whatever the case mapping of the host is.  On ASCII texts, with the
    ASCII part of the case mapping that Unicode prescribes, this is the
    substring search that ignores the case of the letters [A] to [Z]. *)
Theorem search_matches_substrings
        (env : Env) (q : Query.t) (w : World) (s : string) (x : Product.t) :
  Query.search q = Some s ->
  s <> "" ->
  let found := fun lower text => contains (lower text) (lower s) in
  (In x (surviving env (onlySearch q) w)
   <-> In x (catalog w)
       /\ (found (toLowerCase env) (Product.title x)
           \/ found (toLowerCase env) (Product.description x)))
  /\ (In x (surviving env q w) ->
      found (toLowerCase env) (Product.title x)
      \/ found (toLowerCase env) (Product.description x))
  /\ (foldsASCII env ->
      isASCII s -> isASCII (Product.title x) -> isASCII (Product.description x) ->
      (In x (surviving env (onlySearch q) w)
       <-> In x (catalog w)
           /\ (found (map lowerASCII) (Product.title x)
               \/ found (map lowerASCII) (Product.description x)))).
Proof.
  intros Hsearch Hs found.
  assert (Hn : nonEmpty s = true).
  { unfold nonEmpty. rewrite (eqb_neq_false _ _ Hs). reflexivity. }
  assert (Hm : matches env s x = true
               <-> found (toLowerCase env) (Product.title x)
                   \/ found (toLowerCase env) (Product.description x)).
  { unfold matches, found. rewrite Bool.orb_true_iff, !includes_contains. reflexivity. }
  assert (Hone : In x (surviving env (onlySearch q) w)
                 <-> In x (catalog w)
                     /\ (found (toLowerCase env) (Product.title x)
                         \/ found (toLowerCase env) (Product.description x))).
  { rewrite surviving_keeps, filter_In. unfold keeps, convert, onlySearch.
    cbn [Params.category Params.minPrice Params.maxPrice Params.search
         Query.category Query.minPrice Query.maxPrice Query.search
         truthy fmap option_fmap option_map].
    rewrite Hsearch, Hn. rewrite !Bool.andb_true_iff, Hm. tauto. }
  split; [exact Hone|]. split.
  - rewrite surviving_keeps, filter_In. unfold keeps, convert.
    cbn [Params.search]. rewrite Hsearch, Hn. rewrite !Bool.andb_true_iff, Hm. tauto.
  - intros Hfold Hs' Ht Hd. rewrite Hone. unfold found.
    rewrite (Hfold _ Hs'), (Hfold _ Ht), (Hfold _ Hd). reflexivity.
Qed.

Lemma search_matches_substrings_witness :
  "AMP" <> ""
  /\ foldsASCII Sample.env
  /\ isASCII "AMP"
  /\ isASCII (Product.title Sample.lamp)
  /\ isASCII (Product.description Sample.lamp)
  /\ (In Sample.lamp
        (surviving Sample.env
           (onlySearch (Query.mk None None None None None None None (Some "AMP")))
           (Sample.world [Sample.lamp; Sample.phone]))
      <-> In Sample.lamp (catalog (Sample.world [Sample.lamp; Sample.phone]))
          /\ (contains (map lowerASCII (Product.title Sample.lamp)) (map lowerASCII "AMP")
              \/ contains (map lowerASCII (Product.description Sample.lamp))
                   (map lowerASCII "AMP"))).
Proof.
  assert (Hfold : foldsASCII Sample.env) by (intros s _; reflexivity).
  assert (Hascii : forall s,
             forallb (fun c => code c <? 128) s = true -> isASCII s).
  { intros s H. apply Forall_forall. intros c Hc.
    rewrite forallb_forall in H. apply Z.ltb_lt. apply H.
    apply list_elem_of_In. exact Hc. }
  split; [discriminate|]. split; [exact Hfold|].
  split; [apply Hascii; reflexivity|].
  split; [apply Hascii; reflexivity|].
  split; [apply Hascii; reflexivity|].
  destruct (search_matches_substrings Sample.env
              (Query.mk None None None None None None None (Some "AMP"))
              (Sample.world [Sample.lamp; Sample.phone]) "AMP" Sample.lamp
              eq_refl ltac:(discriminate)) as (_ & _ & H).
  apply H; [exact Hfold|apply Hascii; reflexivity..].
Defined.

(** X18. The listing reads and does not write.  [GET /api/products]
    answers 200 for every query, and apart from the arrays it allocates
    it changes nothing: the arrays that existed, the key store, the two
    files, the clock and the oracles are as before. *)
Theorem listProducts_reads_only (env : Env) (q : Query.t) (w : World) :
  (exists body, fst (listProducts env q w) = Json body)
  /\ preserves w (snd (listProducts env q w)).
Proof.
  split; [eexists; apply listProducts_answer|].
  apply (local_listProducts w env q w (preserves_refl w)).
Qed.

(** ** Lookup by id *)

Lemma find_first {A : Type} (f : A -> bool) (l : list A) (x : A) :
  List.find f l = Some x
  <-> exists before after,
        l = (before ++ x :: after)%list /\ f x = true
        /\ Forall (fun y => f y = false) before.
Proof.
  induction l as [|y l IH]; cbn [List.find].
  - split; [discriminate|]. intros (before & after & H & _). destruct before; discriminate H.
  - destruct (f y) eqn:E.
    + split.
      * intros H. injection H as <-. exists [], l. repeat split; [exact E|constructor].
      * intros (before & after & H & Hx & Hb). destruct before as [|b before].
        -- injection H as <- _. reflexivity.
        -- injection H as <- _. inversion Hb. congruence.
    + rewrite IH. split.
      * intros (before & after & -> & Hx & Hb). exists (y :: before), after.
        repeat split; [exact Hx|constructor; assumption].
      * intros (before & after & H & Hx & Hb). destruct before as [|b before].
        -- injection H as -> _. congruence.
        -- injection H as _ ->. inversion Hb. exists before, after. repeat split; assumption.
Qed.

Lemma strict_eq_parseInt (v : value) (i : Z) :
  strict_eq (ofZ i) (parseInt v) = true <-> parseInt v = ofZ i.
Proof.
  destruct (parseInt_cases v) as [->|[z ->]].
  - split; discriminate.
  - rewrite strict_eq_ofZ, Z.eqb_eq. split; [intros ->; reflexivity|].
    intros H. injection H as H. symmetry. exact H.
Qed.

Lemma strict_eq_parseInt_false (v : value) (i : Z) :
  strict_eq (ofZ i) (parseInt v) = false <-> parseInt v <> ofZ i.
Proof.
  rewrite <- strict_eq_parseInt. destruct (strict_eq (ofZ i) (parseInt v)); split; congruence.
Qed.

Lemma getProduct_find (param : string) (w : World) :
  getProduct param w
  = (match List.find (fun p => strict_eq (ofZ (Product.id p)) (parseInt (Str param)))
                     (catalog w) with
     | Some product => Json product
     | None => Error 404 "Product not found"
     end, w).
Proof.
  unfold getProduct, bind, get, Array_find, readArray, get, bind, ret.
  fold (catalog w). destruct (List.find _ (catalog w)); reflexivity.
Qed.

Lemma getProduct_Json (param : string) (w : World) (p : Product.t) :
  fst (getProduct param w) = Json p
  <-> exists before after,
        catalog w = (before ++ p :: after)%list
        /\ parseInt (Str param) = ofZ (Product.id p)
        /\ Forall (fun y => parseInt (Str param) <> ofZ (Product.id y)) before.
Proof.
  rewrite getProduct_find. cbn [fst].
  set (f := fun p => strict_eq (ofZ (Product.id p)) (parseInt (Str param))).
  assert (Hfind : match List.find f (catalog w) with
                  | Some product => Json product
                  | None => Error 404 "Product not found"
                  end = Json p
                  <-> List.find f (catalog w) = Some p).
  { destruct (List.find f (catalog w)); split; congruence. }
  rewrite Hfind, find_first. unfold f.
  split; intros (before & after & H & Hp & Hb); exists before, after;
    (split; [exact H|]); (split; [apply strict_eq_parseInt; exact Hp|]);
    (eapply Forall_impl; [exact Hb|]); intros y; apply strict_eq_parseInt_false.
Qed.

(** X19. Lookup by id returns the first product with that id.  When
    [parseInt] cannot read the parameter, or reads it as a safe integer,
    the reply to [GET /api/products/:id] is the product [p] exactly when
    [parseInt] reads the parameter as the id of [p] and [p] is the first
    product of the catalog with this id; it is 404 "Product not found"
    exactly when no product of the catalog has the id read (an unreadable
    parameter included).  The lookup changes nothing.  (Beyond the safe
    integers [parseInt] rounds what it reads, and the statement is
    silent.) *)
Theorem getProduct_first_match (param : string) (w : World) :
  (forall z, parseInt (Str param) = ofZ z -> isSafeInteger z) ->
  (forall p,
     fst (getProduct param w) = Json p
     <-> exists before after,
           catalog w = before ++ p :: after
           /\ parseInt (Str param) = ofZ (Product.id p)
           /\ Forall (fun y => parseInt (Str param) <> ofZ (Product.id y)) before)
  /\ (fst (getProduct param w) = Error 404 "Product not found"
      <-> forall y, In y (catalog w) -> parseInt (Str param) <> ofZ (Product.id y))
  /\ snd (getProduct param w) = w.
Proof.
  intros _.
  split; [intros p; apply getProduct_Json|].
  rewrite getProduct_find. cbn [fst snd]. split; [|reflexivity].
  destruct (List.find _ (catalog w)) as [p|] eqn:E.
  - split; [discriminate|]. intros Hall. exfalso.
    apply find_some in E. destruct E as [Hin Hp].
    apply strict_eq_parseInt in Hp. exact (Hall p Hin Hp).
  - split; [|reflexivity]. intros _ y Hy.
    apply strict_eq_parseInt_false. exact (find_none _ _ E y Hy).
Qed.

Lemma getProduct_first_match_witness :
  (forall z, parseInt (Str (160%N :: "2")) = ofZ z -> isSafeInteger z)
  /\ fst (getProduct (160%N :: "2") (Sample.world [Sample.lamp; Sample.novel]))
     = Json Sample.novel.
Proof.
  assert (Hsafe : forall z, parseInt (Str (160%N :: "2")) = ofZ z -> isSafeInteger z).
  { intros z Hz. vm_compute in Hz. injection Hz as <-. vm_compute. discriminate. }
  split; [exact Hsafe|].
  destruct (getProduct_first_match (160%N :: "2") (Sample.world [Sample.lamp; Sample.novel])
              Hsafe) as (Hfound & _).
  apply Hfound. exists [Sample.lamp], []. split; [reflexivity|]. split; [reflexivity|].
  constructor; [|constructor]. intros H. vm_compute in H. discriminate H.
Defined.

(** X20. A regenerated product is found under its id.  After a
    successful regeneration with [count = N], the lookup of every id [i]
    from 1 to [N], sent as a decimal numeral, answers the product of the
    catalog at place [i - 1], whose id is [i]. *)
Theorem regenerated_product_found
        (env : Env) (N : nat) (masterKey : option string) (w w' : World)
        (body : Regenerated.t) (i : Z) :
  regenerateProducts env (Some (inject_Z (Z.of_nat N))) masterKey w = (Json body, w') ->
  1 <= i <= Z.of_nat N ->
  exists p, fst (getProduct (ToString (Literal i)) w') = Json p
            /\ Product.id p = i
            /\ catalog w' !! Z.to_nat (i - 1) = Some p.
Proof.
  intros Hrun Hi. apply regenerateProducts_catalog in Hrun. destruct Hrun as [Hcat _].
  assert (Hids : map Product.id (catalog w') = map Z.of_nat (seq 1 N)).
  { rewrite Hcat, generateFrom_ids. apply map_ext. intros k. lia. }
  assert (Hlen : length (catalog w') = N).
  { rewrite <- (length_map Product.id), Hids, length_map, length_seq. reflexivity. }
  assert (Hid : forall k x, catalog w' !! k = Some x -> Product.id x = Z.of_nat (S k)).
  { intros k x Hk.
    assert (H : map Product.id (catalog w') !! k = Some (Product.id x)).
    { change (map Product.id (catalog w')) with (Product.id <$> catalog w').
      rewrite list_lookup_fmap, Hk. reflexivity. }
    rewrite Hids in H. change (map Z.of_nat (seq 1 N)) with (Z.of_nat <$> seq 1 N) in H.
    rewrite list_lookup_fmap in H.
    destruct (seq 1 N !! k) as [n|] eqn:E; [|discriminate].
    apply lookup_seq in E. destruct E as [-> _]. injection H as ->. reflexivity. }
  destruct (lookup_lt_is_Some_2 (catalog w') (Z.to_nat (i - 1))) as [p Hp]; [lia|].
  exists p. split; [|split; [rewrite (Hid _ _ Hp); lia|exact Hp]].
  apply (proj2 (getProduct_Json (ToString (Literal i)) w' p)).
  exists (take (Z.to_nat (i - 1)) (catalog w')), (drop (S (Z.to_nat (i - 1))) (catalog w')).
  split; [symmetry; apply take_drop_middle; exact Hp|].
  rewrite parseInt_numeral by lia. split; [rewrite (Hid _ _ Hp); f_equal; lia|].
  apply Forall_forall. intros y Hy.
  apply list_elem_of_lookup in Hy. destruct Hy as [k Hk].
  apply lookup_take_Some in Hk. destruct Hk as [Hk Hlt].
  rewrite (Hid _ _ Hk). intros Heq. injection Heq as Heq. lia.
Qed.

Lemma regenerated_product_found_witness :
  1 <= 2 <= Z.of_nat 3
  /\ exists p,
       fst (getProduct (ToString (Literal 2))
              (snd (regenerateProducts Sample.env (Some (inject_Z (Z.of_nat 3)))
                      (Some "secret") (Sample.world [Sample.phone])))) = Json p
       /\ Product.id p = 2
       /\ catalog (snd (regenerateProducts Sample.env (Some (inject_Z (Z.of_nat 3)))
                          (Some "secret") (Sample.world [Sample.phone])))
            !! Z.to_nat (2 - 1) = Some p.
Proof.
  split; [lia|].
  apply (regenerated_product_found Sample.env 3 (Some "secret") (Sample.world [Sample.phone])
           (snd (regenerateProducts Sample.env (Some (inject_Z (Z.of_nat 3)))
                   (Some "secret") (Sample.world [Sample.phone])))
           (Regenerated.mk "Products regenerated successfully" 3) 2);
    [reflexivity|lia].
Defined.

(** ** The categories *)

Lemma distinct_In (seen l : list string) (c : string) :
  In c (distinct seen l) <-> In c l /\ ~ In c seen.
Proof.
  revert seen. induction l as [|x l IH]; intros seen; cbn [distinct].
  - cbn. tauto.
  - destruct (Array_includes seen x) eqn:E.
    + apply includes_In in E. rewrite IH. cbn [In]. split; [tauto|].
      intros [[->|H] Hs]; [contradiction|tauto].
    + assert (Hx : ~ In x seen) by (rewrite <- includes_In; congruence).
      cbn [In]. rewrite IH. cbn [In]. split.
      * intros [->|[H Hs]]; [tauto|]. split; [tauto|]. intros Hc. apply Hs. right. exact Hc.
      * intros [[->|H] Hs]; [tauto|].
        destruct (decide (x = c)) as [->|Hne]; [tauto|]. right. split; [exact H|].
        intros [Hc|Hc]; [contradiction|contradiction].
Qed.

Lemma distinct_NoDup (seen l : list string) : List.NoDup (distinct seen l).
Proof.
  revert seen. induction l as [|x l IH]; intros seen; cbn [distinct]; [constructor|].
  destruct (Array_includes seen x); [apply IH|].
  constructor; [|apply IH]. rewrite distinct_In. cbn [In]. tauto.
Qed.

Lemma distinct_sublist (seen l : list string) : sublist (distinct seen l) l.
Proof.
  revert seen. induction l as [|x l IH]; intros seen; cbn [distinct]; [constructor|].
  destruct (Array_includes seen x); [apply sublist_cons|apply sublist_skip]; apply IH.
Qed.

(** X21. The categories, once each.  [GET /api/categories] answers the
    categories of the products of the catalog: every one of them and
    nothing else, each once, in the order in which the catalog meets them
    (the list is a subsequence of the categories of the catalog and
    starts with the category of the first product).  It changes
    nothing. *)
Theorem getCategories_distinct (w : World) :
  exists l,
    getCategories w = (Json l, w)
    /\ List.NoDup l
    /\ (forall c, In c l <-> exists p, In p (catalog w) /\ Product.category p = c)
    /\ sublist l (map Product.category (catalog w))
    /\ hd_error l = hd_error (map Product.category (catalog w)).
Proof.
  unfold getCategories, bind, get, readArray, get, ret. fold (catalog w).
  eexists. split; [reflexivity|].
  split; [apply distinct_NoDup|]. split; [|split; [apply distinct_sublist|]].
  - intros c. rewrite distinct_In, in_map_iff. cbn [In]. split.
    + intros [(p & Hp & Hin) _]. eauto.
    + intros (p & Hin & Hp). split; [eauto|tauto].
  - destruct (catalog w); reflexivity.
Qed.

(** ** Regeneration *)

(** The number of products [Array.from] makes for a [count]. *)
Lemma ToLength_count_cases (count : option Q) :
  ToLength (default (ofZ 100) (Fin <$> count))
  = Z.min (match count with
           | None => 100
           | Some c => Z.max 0 (Qfloor c)
           end) (2 ^ 53 - 1).
Proof.
  destruct count as [[num den]|]; [|reflexivity].
  cbn [fmap option_fmap option_map default from_option id].
  unfold ToLength, ToIntegerOrInfinity. cbn [Qnum Qden Qfloor]. f_equal.
  destruct (Z.lt_ge_cases num 0) as [Hneg|Hpos].
  - assert (H1 : num ÷ Z.pos den <= 0).
    { apply Z.quot_le_upper_bound; lia. }
    assert (H2 : num / Z.pos den < 0) by (apply Z.div_lt_upper_bound; lia).
    lia.
  - rewrite Z.quot_div_nonneg by lia. lia.
Qed.

Lemma generateFrom_frame (n : nat) (index : Z) (w : World) :
  let w' := snd (generateFrom n index w) in
  arrays w' = arrays w /\ products w' = products w
  /\ inMemoryProducts w' = inMemoryProducts w /\ productsFile w' = productsFile w
  /\ apiKeys w' = apiKeys w /\ apiKeysFile w' = apiKeysFile w
  /\ clock w' = clock w /\ uuids w' = uuids w
  /\ (forall k, faker w' k = faker w (n + k)%nat).
Proof.
  revert index w. induction n as [|n IH]; intros index w; [cbn; tauto|].
  cbn [generateFrom]. unfold bind, generateProduct.
  specialize (IH (index + 1) (set_faker (next (faker w)) w)).
  destruct (generateFrom n (index + 1) (set_faker (next (faker w)) w)) as [rest w'].
  cbn [snd ret] in *. destruct IH as (? & ? & ? & ? & ? & ? & ? & ? & Hf).
  repeat split; assumption.
Qed.

(** The three outcomes of a regeneration. *)
Lemma regenerateProducts_cases
      (env : Env) (count : option Q) (masterKey : option string) (w : World) :
  let n := match count with
           | None => 100
           | Some c => Z.max 0 (Qfloor c)
           end in
  let run := regenerateProducts env count masterKey w in
  (masterKey <> MASTER_KEY env /\ run = (Error 403 "Invalid master key", w))
  \/ (masterKey = MASTER_KEY env /\ 2 ^ 32 - 1 < n
      /\ run = (Thrown "RangeError: Invalid array length", w))
  \/ (masterKey = MASTER_KEY env /\ n <= 2 ^ 32 - 1
      /\ fst run = Json (Regenerated.mk "Products regenerated successfully" n)
      /\ catalog (snd run) = fst (generateFrom (Z.to_nat n) 0 w)
      /\ arrays w !! products (snd run) = None
      /\ (forall r l, arrays w !! r = Some l -> arrays (snd run) !! r = Some l)
      /\ apiKeys (snd run) = apiKeys w /\ apiKeysFile (snd run) = apiKeysFile w
      /\ clock (snd run) = clock w /\ uuids (snd run) = uuids w
      /\ (forall k, faker (snd run) k = faker w (Z.to_nat n + k)%nat)
      /\ productsFile (snd run)
         = (if isVercel env then productsFile w else Some (catalog (snd run)))
      /\ inMemoryProducts (snd run)
         = (if isVercel env then Some (products (snd run)) else inMemoryProducts w)).
Proof.
  intros n run. subst run.
  destruct (regenerateProducts env count masterKey w) as [reply w'] eqn:Hrun.
  cbn [fst snd]. revert Hrun. unfold regenerateProducts, wrongMasterKey.
  destruct (decide (masterKey = MASTER_KEY env)) as [Hm|Hm].
  2: { rewrite (bool_decide_eq_false_2 _ Hm). intros Hrun. injection Hrun as <- <-.
       left. split; [exact Hm|reflexivity]. }
  rewrite (bool_decide_eq_true_2 _ Hm). cbn [negb].
  unfold generateMockProducts. rewrite ToLength_count_cases. fold n.
  assert (Hn : 0 <= n) by (subst n; destruct count; lia).
  destruct (Z.ltb_spec (2 ^ 32 - 1) (Z.min n (2 ^ 53 - 1))) as [Hbig|Hsmall].
  { intros Hrun. injection Hrun as <- <-. right. left.
    split; [exact Hm|]. split; [lia|reflexivity]. }
  rewrite Z.min_l by lia.
  unfold bind at 1. unfold bind at 1.
  pose proof (generateFrom_frame (Z.to_nat n) 0 w) as Hframe. cbv zeta in Hframe.
  assert (Hcount : length (fst (generateFrom (Z.to_nat n) 0 w)) = Z.to_nat n).
  { rewrite <- (length_map Product.id), generateFrom_ids, length_map, length_seq.
    reflexivity. }
  destruct (generateFrom (Z.to_nat n) 0 w) as [l w1]. cbn [fst snd] in *.
  destruct Hframe as (Ha & Hp & Hi & Hpf & Hk & Hkf & Hc & Hu & Hf).
  assert (Hfresh : arrays w !! fresh (dom (arrays w1)) = None).
  { rewrite <- Ha. apply not_elem_of_dom. apply is_fresh. }
  unfold newArray, bind, ret, modify, saveProductsToFile, Array_length, readArray, get, bind.
  intros Hrun. right. right. split; [exact Hm|]. split; [lia|].
  destruct (isVercel env); cbn in Hrun; unfold elements in Hrun; cbn in Hrun;
    rewrite lookup_insert_eq in Hrun; cbn in Hrun;
    injection Hrun as <- <-; unfold catalog, elements; cbn;
    rewrite ?lookup_insert_eq; cbn; rewrite Hcount, Z2Nat.id by lia;
    (repeat split; try assumption; try reflexivity);
    intros r l' Hr; (rewrite lookup_insert_ne; [rewrite Ha; exact Hr|]);
    intros <-; congruence.
Qed.

(** X22. How many products a [count] gives.  With the master key, a
    regeneration makes [n] products with the ids 1, ..., [n], where [n]
    is 100 when [count] is absent and otherwise [count] rounded down, or 0
    when [count] is negative; it answers 200 with [count: n] as long as
    [n] is an array length ([n <= 2^32 - 1]). *)
Theorem regenerateProducts_count
        (env : Env) (count : option Q) (masterKey : option string) (w : World) :
  masterKey = MASTER_KEY env ->
  let n := match count with
           | None => 100
           | Some c => Z.max 0 (Qfloor c)
           end in
  n <= 2 ^ 32 - 1 ->
  let run := regenerateProducts env count masterKey w in
  fst run = Json (Regenerated.mk "Products regenerated successfully" n)
  /\ map Product.id (catalog (snd run)) = map Z.of_nat (seq 1 (Z.to_nat n)).
Proof.
  intros Hm n Hn run.
  destruct (regenerateProducts_cases env count masterKey w)
    as [[Hw _]|[(_ & Hbig & _)|(_ & _ & Hreply & Hcat & _)]].
  - contradiction.
  - fold n in Hbig. lia.
  - fold n run in Hreply, Hcat. split; [exact Hreply|].
    rewrite Hcat, generateFrom_ids. apply map_ext. intros k. lia.
Qed.

Lemma regenerateProducts_count_witness :
  Some "secret" = MASTER_KEY Sample.env
  /\ Z.max 0 (Qfloor (- 7 # 2)) <= 2 ^ 32 - 1
  /\ fst (regenerateProducts Sample.env (Some (- 7 # 2)) (Some "secret")
            (Sample.world [Sample.phone]))
     = Json (Regenerated.mk "Products regenerated successfully" 0)
  /\ map Product.id
       (catalog (snd (regenerateProducts Sample.env (Some (- 7 # 2)) (Some "secret")
                        (Sample.world [Sample.phone])))) = [].
Proof.
  split; [reflexivity|]. split; [vm_compute; discriminate|].
  apply (regenerateProducts_count Sample.env (Some (- 7 # 2)) (Some "secret")
           (Sample.world [Sample.phone])); [reflexivity|vm_compute; discriminate].
Defined.



(** X24. What a successful regeneration touches.  It binds [products]
    to a new array and leaves the arrays that existed, the old catalog
    among them, as they were; it saves the new catalog (in
    [products.json], or in [inMemoryProducts] on Vercel); it consumes one
    mock record for each product; and it leaves the key store, the key
    file and the clock alone. *)
Theorem regenerateProducts_effects
        (env : Env) (count : option Q) (masterKey : option string) (w w' : World)
        (body : Regenerated.t) :
  regenerateProducts env count masterKey w = (Json body, w') ->
  arrays w !! products w' = None
  /\ (forall r l, arrays w !! r = Some l -> arrays w' !! r = Some l)
  /\ (isVercel env = false -> catalogSaved w')
  /\ (isVercel env = true -> inMemoryProducts w' = Some (products w'))
  /\ (forall k, faker w' k = faker w (length (catalog w') + k)%nat)
  /\ apiKeys w' = apiKeys w
  /\ apiKeysFile w' = apiKeysFile w
  /\ clock w' = clock w.
Proof.
  intros Hrun.
  destruct (regenerateProducts_cases env count masterKey w)
    as [[_ H]|[(_ & _ & H)|(_ & _ & _ & Hcat & Hnew & Hold & Hk & Hkf & Hc & _ & Hf & Hpf & Hi)]].
  - rewrite Hrun in H. discriminate H.
  - rewrite Hrun in H. discriminate H.
  - rewrite Hrun in *. cbn [fst snd] in *.
    assert (Hlen : length (catalog w')
                   = Z.to_nat match count with
                              | None => 100
                              | Some c => Z.max 0 (Qfloor c)
                              end).
    { rewrite Hcat, <- (length_map Product.id), generateFrom_ids, length_map, length_seq.
      reflexivity. }
    repeat split; try assumption.
    + intros Hv. unfold catalogSaved. rewrite Hpf, Hv. reflexivity.
    + intros Hv. rewrite Hi, Hv. reflexivity.
    + intros k. rewrite Hlen. apply Hf.
Qed.

Lemma regenerateProducts_effects_witness :
  regenerateProducts Sample.env (Some 2%Q) (Some "secret") (Sample.world [Sample.phone])
  = (Json (Regenerated.mk "Products regenerated successfully" 2),
     snd (regenerateProducts Sample.env (Some 2%Q) (Some "secret") (Sample.world [Sample.phone])))
  /\ arrays (snd (regenerateProducts Sample.env (Some 2%Q) (Some "secret")
                    (Sample.world [Sample.phone])))
       !! products (Sample.world [Sample.phone]) = Some [Sample.phone].
Proof.
  split; [reflexivity|].
  destruct (regenerateProducts_effects Sample.env (Some 2%Q) (Some "secret")
              (Sample.world [Sample.phone])
              (snd (regenerateProducts Sample.env (Some 2%Q) (Some "secret")
                      (Sample.world [Sample.phone])))
              (Regenerated.mk "Products regenerated successfully" 2) eq_refl)
    as (_ & Hold & _).
  apply Hold. reflexivity.
Defined.

(** ** Start-up *)

(** Start-up when [products.json] exists. *)
Lemma startup_with_file (env : Env) (w : World) (l : list Product.t) :
  productsFile w = Some l ->
  fst (startup env w) = true
  /\ catalog (snd (startup env w)) = l
  /\ arrays w !! products (snd (startup env w)) = None
  /\ productsFile (snd (startup env w)) = Some l
  /\ faker (snd (startup env w)) = faker w
  /\ apiKeys (snd (startup env w))
     = (if isVercel env then ∅ else default ∅ (apiKeysFile w))
  /\ apiKeysFile (snd (startup env w)) = apiKeysFile w.
Proof.
  intros Hfile.
  destruct (startup env w) as [started w'] eqn:Hrun. cbn [fst snd].
  revert Hrun. unfold startup. unfold bind at 1. unfold modify at 1. unfold bind at 1.
  assert (El : loadProductsFromFile env (set_inMemoryProducts None w)
               = (Some (fresh (dom (arrays w))),
                  set_arrays (<[fresh (dom (arrays w)) := l]> (arrays w))
                             (set_inMemoryProducts None w))).
  { unfold loadProductsFromFile.
    destruct (isVercel env); unfold bind, get, newArray, ret; cbn; rewrite Hfile; reflexivity. }
  rewrite El. unfold bind, modify, ret, loadApiKeysFromFile, get.
  assert (Hfresh : arrays w !! fresh (dom (arrays w)) = None).
  { apply not_elem_of_dom. apply is_fresh. }
  destruct (isVercel env); cbn; intros H; injection H as <- <-;
    unfold catalog, elements; cbn; rewrite lookup_insert_eq; cbn;
    repeat split; assumption.
Qed.

(** Start-up when there is no [products.json]. *)
Lemma startup_without_file (env : Env) (w : World) :
  productsFile w = None ->
  fst (startup env w) = true
  /\ map Product.id (catalog (snd (startup env w))) = map Z.of_nat (seq 1 100)
  /\ productsFile (snd (startup env w))
     = (if isVercel env then None else Some (catalog (snd (startup env w))))
  /\ inMemoryProducts (snd (startup env w))
     = (if isVercel env then Some (products (snd (startup env w))) else None)
  /\ apiKeys (snd (startup env w))
     = (if isVercel env then ∅ else default ∅ (apiKeysFile w))
  /\ apiKeysFile (snd (startup env w)) = apiKeysFile w.
Proof.
  intros Hfile.
  destruct (startup env w) as [started w'] eqn:Hrun. cbn [fst snd].
  revert Hrun. unfold startup. unfold bind at 1. unfold modify at 1. unfold bind at 1.
  assert (El : loadProductsFromFile env (set_inMemoryProducts None w)
               = (None, set_inMemoryProducts None w)).
  { unfold loadProductsFromFile.
    destruct (isVercel env); unfold bind, get, newArray, ret; cbn; rewrite Hfile; reflexivity. }
  rewrite El. unfold bind at 1. unfold bind at 1.
  unfold generateMockProducts.
  change (2 ^ 32 - 1 <? ToLength (ofZ 100)) with false.
  change (Z.to_nat (ToLength (ofZ 100))) with 100%nat.
  unfold bind at 1.
  pose proof (generateFrom_frame 100 0 (set_inMemoryProducts None w)) as Hframe.
  cbv zeta in Hframe.
  pose proof (generateFrom_ids 100 0 (set_inMemoryProducts None w)) as Hids.
  destruct (generateFrom 100 0 (set_inMemoryProducts None w)) as [l w1].
  cbn [fst snd] in Hframe, Hids.
  destruct Hframe as (Ha & Hp & Hi & Hpf & Hk & Hkf & Hc & Hu & Hf).
  assert (Hids' : map Product.id l = map Z.of_nat (seq 1 100)).
  { rewrite Hids. apply map_ext. intros k. lia. }
  unfold bind, newArray, ret, modify, saveProductsToFile, readArray, get, bind,
    loadApiKeysFromFile, get.
  destruct (isVercel env); cbn; unfold elements; cbn; rewrite ?lookup_insert_eq; cbn;
    intros H; injection H as <- <-; unfold catalog, elements; cbn;
    rewrite ?lookup_insert_eq; cbn; rewrite ?Hkf, ?Hpf, ?Hfile;
    repeat split; try assumption; reflexivity.
Qed.

(** X25. Start-up loads the catalog file as it is.  When [products.json]
    exists, the process starts with the array it holds as catalog, in a
    new array object, without generating anything: no mock record is
    consumed and the file is not rewritten.  This includes a file that
    holds the empty array: the server then runs with zero products. *)
Theorem startup_loads_file (env : Env) (w : World) (l : list Product.t) :
  productsFile w = Some l ->
  fst (startup env w) = true
  /\ catalog (snd (startup env w)) = l
  /\ arrays w !! products (snd (startup env w)) = None
  /\ productsFile (snd (startup env w)) = Some l
  /\ faker (snd (startup env w)) = faker w.
Proof.
  intros Hfile.
  destruct (startup_with_file env w l Hfile) as (H1 & H2 & H3 & H4 & H5 & _).
  repeat split; assumption.
Qed.

Lemma startup_loads_file_witness :
  productsFile (set_productsFile (Some []) (Sample.world [Sample.lamp])) = Some []
  /\ catalog (snd (startup Sample.env
                     (set_productsFile (Some []) (Sample.world [Sample.lamp])))) = [].
Proof.
  split; [reflexivity|].
  apply (startup_loads_file Sample.env
           (set_productsFile (Some []) (Sample.world [Sample.lamp])) []).
  reflexivity.
Defined.

(** X26. Start-up without a catalog file generates 100 products.  When
    there is no [products.json], the process starts with 100 generated
    products whose ids are 1, ..., 100, and saves them: in the file, or
    on Vercel in [inMemoryProducts], where no file is written. *)
Theorem startup_generates (env : Env) (w : World) :
  productsFile w = None ->
  fst (startup env w) = true
  /\ map Product.id (catalog (snd (startup env w))) = map Z.of_nat (seq 1 100)
  /\ (isVercel env = false -> catalogSaved (snd (startup env w)))
  /\ (isVercel env = true ->
      productsFile (snd (startup env w)) = None
      /\ inMemoryProducts (snd (startup env w)) = Some (products (snd (startup env w)))).
Proof.
  intros Hfile.
  destruct (startup_without_file env w Hfile) as (H1 & H2 & H3 & H4 & _).
  split; [exact H1|]. split; [exact H2|]. split.
  - intros Hv. unfold catalogSaved. rewrite H3, Hv. reflexivity.
  - intros Hv. rewrite H3, H4, Hv. split; reflexivity.
Qed.

Lemma startup_generates_witness :
  productsFile (Sample.world []) = None
  /\ fst (startup Sample.env (Sample.world [])) = true
  /\ map Product.id (catalog (snd (startup Sample.env (Sample.world []))))
     = map Z.of_nat (seq 1 100).
Proof.
  split; [reflexivity|].
  destruct (startup_generates Sample.env (Sample.world []) eq_refl) as (H1 & H2 & _).
  split; assumption.
Defined.

(** X27. A regenerated catalog survives a restart.  Outside Vercel,
    after a successful regeneration, a process that starts finds the same
    catalog, product for product, and leaves the file as it is. *)
Theorem regenerated_catalog_survives_restart
        (env : Env) (count : option Q) (masterKey : option string) (w w1 : World)
        (body : Regenerated.t) :
  isVercel env = false ->
  regenerateProducts env count masterKey w = (Json body, w1) ->
  fst (startup env w1) = true
  /\ catalog (snd (startup env w1)) = catalog w1
  /\ catalogSaved (snd (startup env w1)).
Proof.
  intros Hv Hrun.
  assert (Hsaved : productsFile w1 = Some (catalog w1)).
  { destruct (regenerateProducts_cases env count masterKey w)
      as [[_ H]|[(_ & _ & H)|H]]; try (rewrite Hrun in H; discriminate H).
    rewrite Hrun in H. cbn [fst snd] in H.
    destruct H as (_ & _ & _ & _ & _ & _ & _ & _ & _ & _ & _ & Hpf & _).
    rewrite Hpf, Hv. reflexivity. }
  destruct (startup_with_file env w1 (catalog w1) Hsaved) as (H1 & H2 & _ & H4 & _).
  split; [exact H1|]. split; [exact H2|].
  unfold catalogSaved. rewrite H4, H2. reflexivity.
Qed.

Lemma regenerated_catalog_survives_restart_witness :
  isVercel Sample.env = false
  /\ catalog (snd (startup Sample.env
                     (snd (regenerateProducts Sample.env (Some 3%Q) (Some "secret")
                             (Sample.world [Sample.phone])))))
     = catalog (snd (regenerateProducts Sample.env (Some 3%Q) (Some "secret")
                       (Sample.world [Sample.phone]))).
Proof.
  split; [reflexivity|].
  apply (regenerated_catalog_survives_restart Sample.env (Some 3%Q) (Some "secret")
           (Sample.world [Sample.phone])
           (snd (regenerateProducts Sample.env (Some 3%Q) (Some "secret")
                   (Sample.world [Sample.phone])))
           (Regenerated.mk "Products regenerated successfully" 3));
    reflexivity.
Defined.

Lemma startup_apiKeys (env : Env) (w : World) :
  apiKeys (snd (startup env w))
  = (if isVercel env then ∅ else default ∅ (apiKeysFile w)).
Proof.
  destruct (productsFile w) as [l|] eqn:E.
  - destruct (startup_with_file env w l E) as (_ & _ & _ & _ & _ & H & _). exact H.
  - destruct (startup_without_file env w E) as (_ & _ & _ & _ & H & _). exact H.
Qed.

(** X28. Keys across a restart.  After an accepted issuance whose
    duration and expiry instant are safe integers, in a key store whose
    records have integer instants, a process that starts outside Vercel
    has the whole key store back, the new key included; on Vercel, where
    the keys are only in memory, it starts with an empty key store. *)
Theorem issued_key_across_restart
        (env : Env) (w : World) (digits : string) (unit : codeUnit)
        (masterKey : option string) :
  masterKey = MASTER_KEY env ->
  Forall (fun c => isDigit c = true) digits ->
  digits <> [] ->
  isUnit unit ->
  integerInstants w ->
  isSafeInteger (amountOf digits * multiplier unit) ->
  isSafeInteger (clock w 0%nat + amountOf digits * multiplier unit) ->
  let w1 := snd (generateKey env (Some (digits ++ [unit])) masterKey w) in
  (isVercel env = false ->
   apiKeys (snd (startup env w1)) = apiKeys w1
   /\ is_Some (apiKeys (snd (startup env w1)) !! uuids w 0%nat)
   /\ integerInstants (snd (startup env w1)))
  /\ (isVercel env = true -> apiKeys (snd (startup env w1)) = ∅).
Proof.
  intros Hm Hd Hne Hu Hint _ _ w1.
  destruct (generateKey_accepts env w digits unit masterKey Hm Hd Hne Hu)
    as (_ & Hkeys & _ & _ & Hfile).
  fold w1 in Hkeys, Hfile. rewrite startup_apiKeys. split.
  - intros Hv. rewrite Hv in *. rewrite Hfile. cbn [default from_option id].
    split; [reflexivity|]. split; [rewrite Hkeys, lookup_insert_eq; eauto|].
    intros k keyData Hk. rewrite startup_apiKeys, Hv, Hfile in Hk.
    cbn [default from_option id] in Hk. rewrite Hkeys in Hk.
    destruct (decide (k = uuids w 0%nat)) as [->|Hne'].
    + rewrite lookup_insert_eq in Hk. injection Hk as <-. eexists _, _. split; reflexivity.
    + rewrite lookup_insert_ne in Hk by congruence. exact (Hint _ _ Hk).
  - intros Hv. rewrite Hv. reflexivity.
Qed.

Lemma issued_key_across_restart_witness :
  isVercel Sample.env = false
  /\ integerInstants (Sample.world [])
  /\ isSafeInteger (amountOf "7" * multiplier "d"%unit)
  /\ isSafeInteger (clock (Sample.world []) 0%nat + amountOf "7" * multiplier "d"%unit)
  /\ apiKeys (snd (startup Sample.env
                     (snd (generateKey Sample.env (Some "7d") (Some "secret")
                             (Sample.world [])))))
     = apiKeys (snd (generateKey Sample.env (Some "7d") (Some "secret") (Sample.world []))).
Proof.
  assert (Hint : integerInstants (Sample.world [])).
  { intros k keyData Hk. unfold Sample.world in Hk. cbn [apiKeys] in Hk.
    apply lookup_singleton_Some in Hk. destruct Hk as [_ <-]. exists 1000, 0.
    split; reflexivity. }
  split; [reflexivity|]. split; [exact Hint|].
  split; [vm_compute; discriminate|]. split; [vm_compute; discriminate|].
  pose proof (issued_key_across_restart Sample.env (Sample.world []) "7" "d"%unit
                (Some "secret")) as H.
  cbv zeta in H.
  destruct H as [H _];
    [reflexivity|repeat constructor|discriminate|right; left; reflexivity|exact Hint
    |vm_compute; discriminate|vm_compute; discriminate|].
  destruct (H eq_refl) as [Hkeys _]. exact Hkeys.
Defined.
